(** * display.h : the format-string scanner and the two render drivers

    A shallow embedding of [find_format_specifiers], [display_vprint] and
    [display_vfprint] from display.h.

    Conventions of the model.
    - A [const char *] position is the suffix of the template that starts
      there ([string]); the terminator is the end of that suffix.  Reading
      [*p] is [cur p].  [p++] on the suffix [""] (the pointer sits on the
      terminator) moves the pointer past the end of the string: every such
      step in the source is followed by a read of [*p], so the model stops
      there with [UB] (a read past the end of the template).
    - [strchr(s, c) != NULL] is [strchr s c]: like the C library function it
      also reports a match for the terminator [c == '\0'].
    - [malloc]/[realloc] are taken to succeed.
    - The native formatting rule applied by [printf]/[fprintf] (libc, not
      part of this repository) is a parameter [native] of the drivers: it gets
      the entry's substring, the C type [va_arg] reads, and the argument.
    - The argument cursor ([va_list]) is the list of remaining arguments.
      [va_arg] on an exhausted cursor, or reading a pointer argument where
      something else was passed, is undefined behaviour ([UB]). *)

From Stdlib Require Import String Ascii ZArith List Bool Lia.
From Stdlib Require Import Numbers.DecimalString.
Import ListNotations.
Open Scope string_scope.

(** ** Outcomes of a run *)

Inductive outcome (A : Type) : Type :=
| Ok (a : A)
| UB        (* undefined behaviour: read past the end, missing argument, ... *)
| NoFuel.   (* the model's iteration bound ran out *)
Arguments Ok {A} a.
Arguments UB {A}.
Arguments NoFuel {A}.

Notation "'let*' x := a 'in' b" :=
  (match a with Some x => b | None => None end)
  (at level 200, x name, a at level 100, b at level 200).

(** ** Characters and C string primitives *)

Definition NUL : ascii := "000".

Fixpoint str_has (s : string) (c : ascii) : bool :=
  match s with
  | EmptyString => false
  | String d s' => Ascii.eqb d c || str_has s' c
  end.

(** [strchr(s, c) != NULL]: the terminator of [s] is found as well. *)
Definition strchr (s : string) (c : ascii) : bool :=
  Ascii.eqb c NUL || str_has s c.

Definition isdigit (c : ascii) : bool :=
  (48 <=? nat_of_ascii c)%nat && (nat_of_ascii c <=? 57)%nat.

(** [*p] *)
Definition cur (p : string) : ascii :=
  match p with EmptyString => NUL | String c _ => c end.

(** [p++]; [None] when [p] leaves the string (see the conventions). *)
Definition incr (p : string) : option string :=
  match p with EmptyString => None | String _ p' => Some p' end.

(** [while (f( *p )) p++;] *)
Fixpoint skip_while (f : ascii -> bool) (p : string) : option string :=
  match p with
  | EmptyString => if f NUL then None else Some EmptyString
  | String c p' => if f c then skip_while f p' else Some p
  end.

(** ** Data model of the scanner (display.h, lines 115-167) *)

Inductive var_type :=
  (* Floating point *)
  | TYPE_FLOAT | TYPE_DOUBLE | TYPE_LONG_DOUBLE
  (* Pointers *)
  | TYPE_POINTER | TYPE_STRING
  (* Reference *)
  | TYPE_POINTER_SIGNED_INT8 | TYPE_POINTER_SHORT | TYPE_POINTER_INT
  | TYPE_POINTER_LONG | TYPE_POINTER_LONG_LONG | TYPE_POINTER_INTMAX_T
  | TYPE_POINTER_SSIZE_T | TYPE_POINTER_PTRDIFF_T
  (* Signed integers *)
  | TYPE_SIGNED_INT8 | TYPE_SHORT | TYPE_INT | TYPE_LONG | TYPE_LONG_LONG
  | TYPE_INTMAX_T | TYPE_SSIZE_T | TYPE_PTRDIFF_T
  (* Unsigned integers *)
  | TYPE_UINT8 | TYPE_USHORT | TYPE_UINT | TYPE_ULONG | TYPE_ULONG_LONG
  | TYPE_UINTMAX_T | TYPE_SIZE_T
  | TYPE_NONE.

Record format_spec_t := {
  substr : string;   (* the substring of the format specifier *)
  type : var_type
}.

(** ** find_format_specifiers (display.h, lines 176-348) *)

(** Width or precision digits: [if ( *p == '*') p++; else while (isdigit( *p)) p++;] *)
Definition star_or_digits (p : string) : option string :=
  if Ascii.eqb (cur p) "*" then incr p else skip_while isdigit p.

(** Length: hh, h, l, ll, j, z, t, L  (lines 219-229).  Returns the
    [length] buffer and the position after it. *)
Definition parse_length (p : string) : option (string * string) :=
  if strchr "hljztL" (cur p) then
    let l0 := cur p in
    let* p1 := incr p in
    if (Ascii.eqb (cur p1) "h" || Ascii.eqb (cur p1) "l") &&
       (Ascii.eqb l0 "h" || Ascii.eqb l0 "l") then
      let* p2 := incr p1 in
      Some (String l0 (String (cur p1) EmptyString), p2)
    else Some (String l0 EmptyString, p1)
  else Some (EmptyString, p).

(** The [strcmp] ladders of lines 252-326; [None] is [type == -1]. *)
Definition length_table (len : string)
    (hh h none l ll j z t : var_type) : var_type :=
  if String.eqb len "hh" then hh
  else if String.eqb len "h" then h
  else if String.eqb len "" then none
  else if String.eqb len "l" then l
  else if String.eqb len "ll" then ll
  else if String.eqb len "j" then j
  else if String.eqb len "z" then z
  else if String.eqb len "t" then t
  else none.

Definition spec_type (specifier : ascii) (len : string) : option var_type :=
  if Ascii.eqb specifier "%" then Some TYPE_NONE
  else if Ascii.eqb specifier "p" then Some TYPE_POINTER
  else if Ascii.eqb specifier "c" then Some TYPE_INT
  else if Ascii.eqb specifier "s" then Some TYPE_STRING
  else if Ascii.eqb specifier "n" then
    Some (length_table len TYPE_POINTER_SIGNED_INT8 TYPE_POINTER_SHORT
            TYPE_POINTER_INT TYPE_POINTER_LONG TYPE_POINTER_LONG_LONG
            TYPE_POINTER_INTMAX_T TYPE_POINTER_SSIZE_T TYPE_POINTER_PTRDIFF_T)
  else if strchr "di" specifier then
    Some (length_table len TYPE_SIGNED_INT8 TYPE_SHORT TYPE_INT TYPE_LONG
            TYPE_LONG_LONG TYPE_INTMAX_T TYPE_SSIZE_T TYPE_PTRDIFF_T)
  else if strchr "ouxX" specifier then
    Some (length_table len TYPE_UINT8 TYPE_USHORT TYPE_UINT TYPE_ULONG
            TYPE_ULONG_LONG TYPE_UINTMAX_T TYPE_SIZE_T TYPE_PTRDIFF_T)
  else if strchr "eEfFgGaA" specifier then
    Some (if String.eqb len "L" then TYPE_LONG_DOUBLE else TYPE_DOUBLE)
  else None.

(** [strncpy(sub, start, len); sub[len] = '\0'] read back as a C string
    (lines 247-248): at most [n] characters of [s], up to its first ['\0']. *)
Fixpoint strncpy_str (n : nat) (s : string) : string :=
  match n, s with
  | O, _ => EmptyString
  | S _, EmptyString => EmptyString
  | S n', String c s' =>
    if Ascii.eqb c NUL then EmptyString else String c (strncpy_str n' s')
  end.

(** One marker, [start] pointing at its ['%'] (lines 189-341).  The result
    is the entry (if any) and the scan position after the marker; a marker
    with an invalid specifier yields no entry and the position reached. *)
Definition parse_marker (start : string)
    : option (option format_spec_t * string) :=
  let* p0 := incr start in                              (* skip '%' *)
  let* p1 := skip_while (strchr "-+ #0") p0 in          (* flags *)
  let* p2 := star_or_digits p1 in                       (* width *)
  let* p3 := (if Ascii.eqb (cur p2) "." then            (* precision *)
                let* q := incr p2 in star_or_digits q
              else Some p2) in
  let* lp := parse_length p3 in                         (* length *)
  let '(len, p4) := lp in
  let specifier := cur p4 in
  if strchr "diouxXeEfFgGaAcspn%" specifier then
    let* p5 := incr p4 in
    let sub := strncpy_str (String.length start - String.length p5) start in
    Some (option_map (fun ty => {| substr := sub; type := ty |})
                     (spec_type specifier len), p5)
  else Some (None, p4).                                 (* invalid specifier *)

Fixpoint scan_loop (fuel : nat) (p : string) (specs : list format_spec_t)
    : outcome (list format_spec_t) :=
  match fuel with
  | O => NoFuel
  | S fuel' =>
    match p with
    | EmptyString => Ok specs
    | String c p' =>
      if Ascii.eqb c NUL then Ok specs
      else if Ascii.eqb c "%" then
        if Ascii.eqb (cur p') "%" then                   (* skip %% *)
          match incr p' with
          | Some q => scan_loop fuel' q specs
          | None => UB
          end
        else
          match parse_marker p with
          | None => UB
          | Some (None, q) => scan_loop fuel' q specs
          | Some (Some e, q) => scan_loop fuel' q (app specs [e])
          end
      else scan_loop fuel' p' specs
    end
  end.

(** The template is a [const char *]: [None] is [NULL]. *)
Definition find_format_specifiers (format : option string)
    : outcome (list format_spec_t) :=
  match format with
  | None => UB                              (* [while ( *p)] on NULL *)
  | Some t => scan_loop (S (String.length t)) t []
  end.

(** ** Opaque display values and the argument cursor *)

(** [display_t] (lines 60-66).  A function pointer is [None] when [NULL];
    a rendering function is given by what it does when called: the text it
    writes to its sink and the [int] it returns.  [display_fn] gets [self],
    [fdisplay_fn] gets [self] and the stream.  [self] is a [void *]. *)
Record display_t := {
  display_fn : option (nat -> string * Z);
  fdisplay_fn : option (nat -> nat -> string * Z);
  sndisplay_fn : option (nat -> nat -> string * Z);
  self : option nat
}.

(** One argument of the [va_list]. *)
Inductive arg :=
| AInt (z : Z)                     (* an integer of some width *)
| AReal (m : Z) (e : Z)            (* a floating-point value m * 2^e *)
| AStr (s : string)                (* a [char *] *)
| APtr (addr : nat)                (* a data pointer (e.g. for %n or %p) *)
| ADisp (d : option display_t).    (* a [display_t *], [None] is [NULL] *)

(** The C type named in a [va_arg] that feeds [printf]. *)
Inductive ctype :=
| CInt | CLong | CLongLong | CIntmax | CSsize | CPtrdiff
| CUInt | CULong | CULongLong | CUintmax | CSize
| CVoidPtr | CCharPtr | CDouble | CLongDouble.

(** The pointee type of a [%n] store. *)
Inductive ptr_kind :=
| PSChar | PShort | PInt | PLong | PLongLong | PIntmax | PSsize | PPtrdiff.

(** What one [case] of the [switch] does. *)
Inductive action :=
| Fmt (t : ctype)          (* [printf(substr, va_arg(args, t))] *)
| StoreCount (k : ptr_kind) (* [*va_arg(args, k * ) = spec_count + struct_count] *)
| Nothing.                 (* [case TYPE_NONE: break;] *)

(** The [switch] of display_vprint (lines 362-459). *)
Definition vprint_case (ty : var_type) : action :=
  match ty with
  | TYPE_INT => Fmt CInt
  | TYPE_SIGNED_INT8 => Fmt CInt
  | TYPE_SHORT => Fmt CInt
  | TYPE_LONG => Fmt CLong
  | TYPE_LONG_LONG => Fmt CLongLong
  | TYPE_INTMAX_T => Fmt CIntmax
  | TYPE_SSIZE_T => Fmt CSsize
  | TYPE_PTRDIFF_T => Fmt CPtrdiff
  | TYPE_UINT => Fmt CUInt
  | TYPE_UINT8 => Fmt CUInt
  | TYPE_USHORT => Fmt CUInt
  | TYPE_ULONG => Fmt CULong
  | TYPE_ULONG_LONG => Fmt CULongLong
  | TYPE_UINTMAX_T => Fmt CUintmax
  | TYPE_SIZE_T => Fmt CSize
  | TYPE_POINTER => Fmt CVoidPtr
  | TYPE_STRING => Fmt CCharPtr
  | TYPE_POINTER_INT => StoreCount PInt
  | TYPE_POINTER_SIGNED_INT8 => StoreCount PSChar
  | TYPE_POINTER_SHORT => StoreCount PShort
  | TYPE_POINTER_LONG => StoreCount PLong
  | TYPE_POINTER_LONG_LONG => StoreCount PLongLong
  | TYPE_POINTER_INTMAX_T => StoreCount PIntmax
  | TYPE_POINTER_SSIZE_T => StoreCount PSsize
  | TYPE_POINTER_PTRDIFF_T => StoreCount PPtrdiff
  | TYPE_FLOAT => Fmt CDouble
  | TYPE_DOUBLE => Fmt CDouble
  | TYPE_LONG_DOUBLE => Fmt CLongDouble
  | TYPE_NONE => Nothing
  end.

(** The [switch] of display_vfprint (lines 533-635). *)
Definition vfprint_case (ty : var_type) : action :=
  match ty with
  | TYPE_INT => Fmt CInt
  | TYPE_SIGNED_INT8 => Fmt CInt
  | TYPE_SHORT => Fmt CInt
  | TYPE_LONG => Fmt CLong
  | TYPE_LONG_LONG => Fmt CLongLong
  | TYPE_INTMAX_T => Fmt CIntmax
  | TYPE_SSIZE_T => Fmt CSsize
  | TYPE_PTRDIFF_T => Fmt CPtrdiff
  | TYPE_UINT => Fmt CUInt
  | TYPE_UINT8 => Fmt CUInt
  | TYPE_USHORT => Fmt CUInt
  | TYPE_ULONG => Fmt CULong
  | TYPE_ULONG_LONG => Fmt CULongLong
  | TYPE_UINTMAX_T => Fmt CUintmax
  | TYPE_SIZE_T => Fmt CSize
  | TYPE_POINTER => Fmt CVoidPtr
  | TYPE_STRING => Fmt CCharPtr
  | TYPE_POINTER_INT => StoreCount PInt
  | TYPE_POINTER_SIGNED_INT8 => StoreCount PSChar
  | TYPE_POINTER_SHORT => StoreCount PShort
  | TYPE_POINTER_LONG => StoreCount PLong
  | TYPE_POINTER_LONG_LONG => StoreCount PLongLong
  | TYPE_POINTER_INTMAX_T => StoreCount PIntmax
  | TYPE_POINTER_SSIZE_T => StoreCount PSsize
  | TYPE_POINTER_PTRDIFF_T => StoreCount PPtrdiff
  | TYPE_FLOAT => Fmt CDouble
  | TYPE_DOUBLE => Fmt CDouble
  | TYPE_LONG_DOUBLE => Fmt CLongDouble
  | TYPE_NONE => Nothing
  end.

(** ** State of a render loop *)

(** A [%n] store: pointee type, address, value assigned (the [int]
    [spec_count + struct_count], converted by the assignment). *)
Definition store := (ptr_kind * nat * Z)%type.

Record dstate := {
  st_p : string;            (* [p] *)
  st_idx : nat;             (* [spec_idx] *)
  st_args : list arg;       (* the [va_list] *)
  st_spec_count : nat;      (* [spec_count] *)
  st_struct_count : nat;    (* [struct_count] *)
  st_out : string;          (* text written to the sink so far *)
  st_mem : list store       (* [%n] stores so far *)
}.

Inductive step_res :=
| Halt                  (* [while ( *p)] exits *)
| Next (st : dstate)    (* one more iteration *)
| Fault.                (* undefined behaviour *)

Definition va_arg (args : list arg) : option (arg * list arg) :=
  match args with [] => None | a :: r => Some (a, r) end.

(** [p += n]; [None] when [p] goes past the terminator. *)
Definition advance (n : nat) (p : string) : option string :=
  if (n <=? String.length p)%nat
  then Some (substring n (String.length p - n) p) else None.

(** [p += 2] *)
Definition skip2 (p : string) : option string :=
  let* q := incr p in incr q.

Definition one (c : ascii) : string := String c EmptyString.

Section Drivers.

(** [printf(substr, x)] / [fprintf(file, substr, x)]: the text libc
    produces for a format [substr] and an argument read as [t]. *)
Variable native : string -> ctype -> arg -> string.

(** The native-marker branch, shared in shape by both drivers: run the
    [case] chosen by [act] for entry [e] and advance past it. *)
Definition native_field (act : action) (e : format_spec_t) (st : dstate)
    : step_res :=
  let n := Z.of_nat (st_spec_count st + st_struct_count st) in
  let r := match act with
           | Fmt t =>
               let* ar := va_arg (st_args st) in
               Some (st_out st ++ native (substr e) t (fst ar), st_mem st, snd ar)
           | StoreCount k =>
               match st_args st with
               | APtr ad :: rest => Some (st_out st, app (st_mem st) [(k, ad, n)], rest)
               | _ => None
               end
           | Nothing => Some (st_out st, st_mem st, st_args st)
           end in
  match r with
  | None => Fault
  | Some (o, m, rest) =>
      match advance (String.length (substr e)) (st_p st) with
      | None => Fault
      | Some p' =>
          Next {| st_p := p'; st_idx := S (st_idx st); st_args := rest;
                  st_spec_count := S (st_spec_count st);
                  st_struct_count := st_struct_count st;
                  st_out := o; st_mem := m |}
      end
  end.

(** One iteration of the [while] loop of display_vprint (lines 359-488). *)
Definition vprint_step (specs : list format_spec_t) (st : dstate) : step_res :=
  let put s st' := {| st_p := st_p st'; st_idx := st_idx st';
                      st_args := st_args st';
                      st_spec_count := st_spec_count st';
                      st_struct_count := st_struct_count st';
                      st_out := st_out st ++ s; st_mem := st_mem st' |} in
  let at_p q rest st' := {| st_p := q; st_idx := st_idx st'; st_args := rest;
                            st_spec_count := st_spec_count st';
                            st_struct_count := st_struct_count st';
                            st_out := st_out st'; st_mem := st_mem st' |} in
  match st_p st with
  | EmptyString => Halt
  | String c p1 =>
    if Ascii.eqb c NUL then Halt
    else if Ascii.eqb c "%" && negb (Ascii.eqb (cur p1) "%") then
      if (st_idx st <? length specs)%nat then
        match nth_error specs (st_idx st) with
        | Some e => native_field (vprint_case (type e)) e st
        | None => Fault
        end
      else Next (put (one c) (at_p p1 (st_args st) st))      (* putchar( *p); p++ *)
    else if Ascii.eqb c "%" && Ascii.eqb (cur p1) "%" then
      match skip2 (st_p st) with
      | Some q => Next (put "%" (at_p q (st_args st) st))     (* putchar('%'); p += 2 *)
      | None => Fault
      end
    else if Ascii.eqb c "{" && Ascii.eqb (cur p1) "}" then
      match skip2 (st_p st), st_args st with
      | Some q, ADisp d :: rest =>
          match d with
          | Some dv =>
              match display_fn dv, self dv with
              | Some f, Some s =>
                  let '(txt, rc) := f s in
                  if Z.eqb rc (-1) then                          (* error from display_fn *)
                    Next (put txt (at_p q rest st))
                  else
                    Next (put txt
                      {| st_p := q; st_idx := st_idx st; st_args := rest;
                         st_spec_count := st_spec_count st;
                         st_struct_count := S (st_struct_count st);
                         st_out := st_out st; st_mem := st_mem st |})
              | _, _ => Next (at_p q rest st)                   (* invalid pointer *)
              end
          | None => Next (at_p q rest st)                       (* invalid pointer *)
          end
      | _, _ => Fault
      end
    else Next (put (one c) (at_p p1 (st_args st) st))          (* putchar( *p); p++ *)
  end.

(** One iteration of the [while] loop of display_vfprint (lines 530-664);
    [file] is the stream handle. *)
Definition vfprint_step (file : nat) (specs : list format_spec_t) (st : dstate)
    : step_res :=
  let put s st' := {| st_p := st_p st'; st_idx := st_idx st';
                      st_args := st_args st';
                      st_spec_count := st_spec_count st';
                      st_struct_count := st_struct_count st';
                      st_out := st_out st ++ s; st_mem := st_mem st' |} in
  let at_p q rest st' := {| st_p := q; st_idx := st_idx st'; st_args := rest;
                            st_spec_count := st_spec_count st';
                            st_struct_count := st_struct_count st';
                            st_out := st_out st'; st_mem := st_mem st' |} in
  match st_p st with
  | EmptyString => Halt
  | String c p1 =>
    if Ascii.eqb c NUL then Halt
    else if Ascii.eqb c "%" && negb (Ascii.eqb (cur p1) "%") then
      if (st_idx st <? length specs)%nat then
        match nth_error specs (st_idx st) with
        | Some e => native_field (vfprint_case (type e)) e st
        | None => Fault
        end
      else Next (put (one c) (at_p p1 (st_args st) st))      (* putc( *p, file); p++ *)
    else if Ascii.eqb c "%" && Ascii.eqb (cur p1) "%" then
      match skip2 (st_p st) with
      | Some q => Next (put "%" (at_p q (st_args st) st))     (* putc('%', file); p += 2 *)
      | None => Fault
      end
    else if Ascii.eqb c "{" && Ascii.eqb (cur p1) "}" then
      match skip2 (st_p st), st_args st with
      | Some q, ADisp d :: rest =>
          match d with
          | Some dv =>
              match fdisplay_fn dv, self dv with
              | Some f, Some s =>
                  let '(txt, rc) := f s file in
                  if Z.eqb rc (-1) then                          (* error from fdisplay_fn *)
                    Next (put txt (at_p q rest st))
                  else
                    Next (put txt
                      {| st_p := q; st_idx := st_idx st; st_args := rest;
                         st_spec_count := st_spec_count st;
                         st_struct_count := S (st_struct_count st);
                         st_out := st_out st; st_mem := st_mem st |})
              | _, _ => Next (at_p q rest st)                   (* invalid pointer *)
              end
          | None => Next (at_p q rest st)                       (* invalid pointer *)
          end
      | _, _ => Fault
      end
    else Next (put (one c) (at_p p1 (st_args st) st))          (* putc( *p, file); p++ *)
  end.

Fixpoint run_loop (step : dstate -> step_res) (fuel : nat) (st : dstate)
    : outcome dstate :=
  match fuel with
  | O => NoFuel
  | S fuel' =>
      match step st with
      | Halt => Ok st
      | Next st' => run_loop step fuel' st'
      | Fault => UB
      end
  end.

(** What a call leaves behind: its return value, the text written to the
    sink, the [%n] stores and the arguments it did not consume. *)
Record vresult := {
  v_ret : Z;
  v_out : string;
  v_mem : list store;
  v_args : list arg
}.

Definition init_state (t : string) (args : list arg) : dstate :=
  {| st_p := t; st_idx := 0; st_args := args; st_spec_count := 0;
     st_struct_count := 0; st_out := ""; st_mem := [] |}.

Definition finish (st : dstate) : vresult :=
  {| v_ret := Z.of_nat (st_spec_count st + st_struct_count st);
     v_out := st_out st; v_mem := st_mem st; v_args := st_args st |}.

Definition failed (args : list arg) : vresult :=
  {| v_ret := -1; v_out := ""; v_mem := []; v_args := args |}.

(** display_vprint (lines 350-493). *)
Definition display_vprint (format : option string) (args : list arg)
    : outcome vresult :=
  match format with
  | None => Ok (failed args)                                  (* if (!format) return -1 *)
  | Some t =>
      match find_format_specifiers (Some t) with
      | Ok specs =>
          match run_loop (vprint_step specs) (S (String.length t)) (init_state t args) with
          | Ok st => Ok (finish st)
          | UB => UB
          | NoFuel => NoFuel
          end
      | UB => UB
      | NoFuel => NoFuel
      end
  end.

(** display_vfprint (lines 521-669); [file] is a [FILE *], [None] is [NULL]. *)
Definition display_vfprint (file : option nat) (format : option string)
    (args : list arg) : outcome vresult :=
  match format, file with
  | Some t, Some f =>
      match find_format_specifiers (Some t) with
      | Ok specs =>
          match run_loop (vfprint_step f specs) (S (String.length t)) (init_state t args) with
          | Ok st => Ok (finish st)
          | UB => UB
          | NoFuel => NoFuel
          end
      | UB => UB
      | NoFuel => NoFuel
      end
  | _, _ => Ok (failed args)                          (* if (!format || !file) return -1 *)
  end.

(** display_vprintln (lines 495-501): the newline is written only when
    display_vprint did not return -1. *)
Definition display_vprintln (format : option string) (args : list arg)
    : outcome vresult :=
  match display_vprint format args with
  | Ok r =>
      Ok (if Z.eqb (v_ret r) (-1) then r
          else {| v_ret := v_ret r; v_out := v_out r ++ one "010";
                  v_mem := v_mem r; v_args := v_args r |})
  | UB => UB
  | NoFuel => NoFuel
  end.

(** display_vfprintln (lines 671-677). *)
Definition display_vfprintln (file : option nat) (format : option string)
    (args : list arg) : outcome vresult :=
  match display_vfprint file format args with
  | Ok r =>
      Ok (if Z.eqb (v_ret r) (-1) then r
          else {| v_ret := v_ret r; v_out := v_out r ++ one "010";
                  v_mem := v_mem r; v_args := v_args r |})
  | UB => UB
  | NoFuel => NoFuel
  end.

(** The variadic entry points (lines 503-519, 679-695): [va_start] makes the
    cursor of the call's extra arguments [args], the [v] function runs on it
    and [va_end] releases it. *)
Definition display_print (format : option string) (args : list arg) :=
  display_vprint format args.
Definition display_println (format : option string) (args : list arg) :=
  display_vprintln format args.
Definition display_fprint (file : option nat) (format : option string)
    (args : list arg) := display_vfprint file format args.
Definition display_fprintln (file : option nat) (format : option string)
    (args : list arg) := display_vfprintln file format args.

End Drivers.

(** ** The public interface of display.h *)

(** Every function the header declares (lines 72-106) and every alias of
    [DISPLAY_STRIP_PREFIX] (lines 697-706). *)
Definition display_api : list string :=
  [ "display_vprint"; "display_vprintln"; "display_print"; "display_println";
    "display_vfprint"; "display_vfprintln"; "display_fprint"; "display_fprintln";
    "print"; "println"; "vprint"; "vprintln";
    "fprint"; "fprintln"; "vfprint"; "vfprintln" ].

(** The buffer-sink entry points listed in README.md (lines 110-115). *)
Definition readme_buffer_api : list string :=
  [ "display_snprint"; "display_snprintln"; "display_vsnprint"; "display_vsnprintln" ].

(** ** Sample inputs *)

Definition Z_to_string (x : Z) : string :=
  NilEmpty.string_of_int (Z.to_int x).

(** A stand-in for libc's formatter on plain [%d] and [%s]. *)
Definition demo_native (sub : string) (t : ctype) (a : arg) : string :=
  match a with AInt z => Z_to_string z | AStr s => s | _ => "" end.

(** An opaque value whose [display_fn] writes "OK" and returns 2. *)
Definition ok_display : display_t :=
  {| display_fn := Some (fun _ => ("OK", 2%Z)); fdisplay_fn := None;
     sndisplay_fn := None; self := Some 1 |}.

(** An opaque value whose [display_fn] writes "X" and then returns -1. *)
Definition failing_display : display_t :=
  {| display_fn := Some (fun _ => ("X", (-1)%Z)); fdisplay_fn := None;
     sndisplay_fn := None; self := Some 1 |}.

(** ** Vocabulary of the statements *)

(** The state after a [{}] field that is not counted: the position moves
    to [q], the cursor to [rest], and [txt] is what reached the sink. *)
Definition skipped (st : dstate) (q : string) (rest : list arg) (txt : string)
    : dstate :=
  {| st_p := q; st_idx := st_idx st; st_args := rest;
     st_spec_count := st_spec_count st; st_struct_count := st_struct_count st;
     st_out := st_out st ++ txt; st_mem := st_mem st |}.

(** The state after a [{}] field rendered with success: as [skipped], and
    [struct_count] goes up by one. *)
Definition counted (st : dstate) (q : string) (rest : list arg) (txt : string)
    : dstate :=
  {| st_p := q; st_idx := st_idx st; st_args := rest;
     st_spec_count := st_spec_count st; st_struct_count := S (st_struct_count st);
     st_out := st_out st ++ txt; st_mem := st_mem st |}.

(** The pointee of each write-count tag (the "Reference" group of the enum). *)
Definition ref_kind (ty : var_type) : option ptr_kind :=
  match ty with
  | TYPE_POINTER_SIGNED_INT8 => Some PSChar
  | TYPE_POINTER_SHORT => Some PShort
  | TYPE_POINTER_INT => Some PInt
  | TYPE_POINTER_LONG => Some PLong
  | TYPE_POINTER_LONG_LONG => Some PLongLong
  | TYPE_POINTER_INTMAX_T => Some PIntmax
  | TYPE_POINTER_SSIZE_T => Some PSsize
  | TYPE_POINTER_PTRDIFF_T => Some PPtrdiff
  | _ => None
  end.

(** The hypothesis of C10 on one argument: an opaque value has both
    [display_fn] and [fdisplay_fn], and on its [self] they write the same
    text and agree on failure ([-1]). *)
Definition caps_agree (file : nat) (a : arg) : Prop :=
  match a with
  | ADisp (Some dv) =>
      exists g h, display_fn dv = Some g /\ fdisplay_fn dv = Some h /\
        forall s, self dv = Some s ->
          fst (g s) = fst (h s file) /\
          Z.eqb (snd (g s)) (-1) = Z.eqb (snd (h s file)) (-1)
  | _ => True
  end.

(** Well-formed markers of the template grammar (spec, section 6), used to
    state C8: [%], flags, a width, a precision, a length, a conversion. *)
Inductive width_part := WNone | WStar | WDigits (d : ascii) (ds : string).
Inductive prec_part := PNone | PStar | PDigits (ds : string).

Record marker := {
  m_flags : string;
  m_width : width_part;
  m_prec : prec_part;
  m_len : string;
  m_conv : ascii
}.

Definition width_text (w : width_part) : string :=
  match w with WNone => "" | WStar => "*" | WDigits d ds => String d ds end.

Definition prec_text (pr : prec_part) : string :=
  match pr with PNone => "" | PStar => ".*" | PDigits ds => String "." ds end.

Definition marker_body (mk : marker) : string :=
  m_flags mk ++ width_text (m_width mk) ++ prec_text (m_prec mk) ++
  m_len mk ++ one (m_conv mk).

Definition marker_text (mk : marker) : string := String "%" (marker_body mk).

Fixpoint all_chars (f : ascii -> bool) (s : string) : bool :=
  match s with EmptyString => true | String c s' => f c && all_chars f s' end.

(** A character other than the terminator. *)
Definition not_nul (c : ascii) : bool := negb (Ascii.eqb c NUL).

Definition valid_lengths : list string :=
  [""; "hh"; "h"; "l"; "ll"; "j"; "z"; "t"; "L"].

(** A marker of the grammar whose conversion takes a value (not [n], not
    [%]); a digit width starts with a non-zero digit (a leading [0] is a
    flag). *)
Definition wf_marker (mk : marker) : bool :=
  all_chars (str_has "-+ #0") (m_flags mk) &&
  match m_width mk with
  | WDigits d ds => str_has "123456789" d && all_chars isdigit ds
  | _ => true
  end &&
  match m_prec mk with PDigits ds => all_chars isdigit ds | _ => true end &&
  existsb (String.eqb (m_len mk)) valid_lengths &&
  str_has "diouxXeEfFgGaAcsp" (m_conv mk).

Definition has_star (mk : marker) : bool :=
  match m_width mk with WStar => true | _ => false end ||
  match m_prec mk with PStar => true | _ => false end.

(** Templates with no native marker and no ["{}"]: every ['%'] is part
    of a ["%%"], no ['{'] is followed by ['}'], and no ['\0'] inside. *)
Fixpoint plain (s : string) : bool :=
  match s with
  | EmptyString => true
  | String c r =>
      if Ascii.eqb c NUL then false
      else if Ascii.eqb c "%" then
        match r with
        | String d r' => Ascii.eqb d "%" && plain r'
        | EmptyString => false
        end
      else if Ascii.eqb c "{" then negb (Ascii.eqb (cur r) "}") && plain r
      else plain r
  end.

(** The last character of [s] is ['{']. *)
Fixpoint last_is_brace (s : string) : bool :=
  match s with
  | EmptyString => false
  | String c EmptyString => Ascii.eqb c "{"
  | String _ r => last_is_brace r
  end.

(** The text of a template with each ["%%"] replaced by ['%']. *)
Fixpoint unescape (s : string) : string :=
  match s with
  | EmptyString => EmptyString
  | String c r =>
      if Ascii.eqb c "%" then
        match r with
        | String _ r' => String "%" (unescape r')
        | EmptyString => one c
        end
      else String c (unescape r)
  end.

(** The value a [%n] store assigns. *)
Definition store_val (s : store) : Z := let '(_, _, v) := s in v.

(** [q] is a tail of [p]: a pointer [q] obtained by advancing [p]. *)
Definition suffix_of (q p : string) : Prop := exists pre, p = pre ++ q.

(** Every [%n] store made so far assigned a count below the current one. *)
Definition stores_below (st : dstate) : Prop :=
  Forall (fun s => (0 <= store_val s < Z.of_nat (st_spec_count st + st_struct_count st))%Z)
    (st_mem st).

(** What one iteration of a render loop preserves: [p] moves forward, the
    argument cursor only advances, the sink only grows, the counts never
    decrease and earlier [%n] stores stay below the count. *)
Definition step_mono (st st' : dstate) : Prop :=
  (String.length (st_p st') < String.length (st_p st))%nat /\
  (exists pre, st_args st = app pre (st_args st')) /\
  (exists o, st_out st' = st_out st ++ o) /\
  (st_spec_count st + st_struct_count st <= st_spec_count st' + st_struct_count st')%nat /\
  (stores_below st -> stores_below st').

(** The state after writing [s] and moving [p] to [q]. *)
Definition moved (st : dstate) (q s : string) : dstate :=
  {| st_p := q; st_idx := st_idx st; st_args := st_args st;
     st_spec_count := st_spec_count st; st_struct_count := st_struct_count st;
     st_out := st_out st ++ s; st_mem := st_mem st |}.

(** The same state with [s] written to the sink before everything else. *)
Definition shift_out (s : string) (st : dstate) : dstate :=
  {| st_p := st_p st; st_idx := st_idx st; st_args := st_args st;
     st_spec_count := st_spec_count st; st_struct_count := st_struct_count st;
     st_out := s ++ st_out st; st_mem := st_mem st |}.

(** A call's result with [s] written before its output. *)
Definition prepend_out (s : string) (o : outcome vresult) : outcome vresult :=
  match o with
  | Ok r => Ok {| v_ret := v_ret r; v_out := s ++ v_out r;
                  v_mem := v_mem r; v_args := v_args r |}
  | UB => UB
  | NoFuel => NoFuel
  end.

(** Head conditions between the stages of [parse_marker]. *)
Definition hd_ok (f : ascii -> bool) (s : string) : Prop :=
  match s with EmptyString => False | String x _ => f x = true end.

Definition after_flags (x : ascii) : bool :=
  negb (strchr "-+ #0" x) && negb (Ascii.eqb x "%").
Definition after_width (x : ascii) : bool :=
  after_flags x && negb (isdigit x) && negb (Ascii.eqb x "*").
Definition after_prec (x : ascii) : bool :=
  after_width x && negb (Ascii.eqb x ".").

(** ** Lemmas *)

Lemma string_app_assoc (a b c : string) : (a ++ b) ++ c = a ++ (b ++ c).
Proof. induction a as [|x a IH]; simpl; [reflexivity | now rewrite IH]. Qed.

Lemma string_app_nil_r (a : string) : a ++ "" = a.
Proof. induction a as [|x a IH]; simpl; [reflexivity | now rewrite IH]. Qed.

(** ** Claims *)

(** C1 (code_bug).  A template that ends inside a marker makes the scanner
    step past the terminator: for ["%"], ["%-"] and ["%5"] the flag loop or
    the length check calls [strchr] on ['\0'], which matches, and [p++]
    leaves the string, so the next [*p] reads past the end of the template. *)
Theorem scan_trailing_marker_reads_past_end (native : string -> ctype -> arg -> string) :
  find_format_specifiers (Some "%") = UB /\
  find_format_specifiers (Some "%-") = UB /\
  find_format_specifiers (Some "%5") = UB /\
  find_format_specifiers (Some "ab%l") = UB /\
  display_vprint native (Some "100%") [] = UB.
Proof. repeat split; reflexivity. Qed.

(** C2.  ["%d-%s {} end"] with [5], ["ok"] and an opaque value rendering
    "OK" writes ["5-ok OK end"] and returns 3, for any native formatter
    that renders [%d] of 5 as "5" and [%s] of "ok" as "ok". *)
Theorem display_vprint_scenario (native : string -> ctype -> arg -> string)
  (Hd : native "%d" CInt (AInt 5) = "5")
  (Hs : native "%s" CCharPtr (AStr "ok") = "ok") :
  display_vprint native (Some "%d-%s {} end")
    [AInt 5; AStr "ok"; ADisp (Some ok_display)]
  = Ok {| v_ret := 3; v_out := "5-ok OK end"; v_mem := []; v_args := [] |}.
Proof.
  vm_compute. rewrite Hd, Hs. reflexivity.
Qed.

Lemma display_vprint_scenario_witness :
  demo_native "%d" CInt (AInt 5) = "5" /\
  demo_native "%s" CCharPtr (AStr "ok") = "ok" /\
  display_vprint demo_native (Some "%d-%s {} end")
    [AInt 5; AStr "ok"; ADisp (Some ok_display)]
  = Ok {| v_ret := 3; v_out := "5-ok OK end"; v_mem := []; v_args := [] |}.
Proof.
  split; [reflexivity | split; [reflexivity |]].
  apply display_vprint_scenario; reflexivity.
Defined.

(** C3 (code_bug).  The length check accepts any two-character token made of
    ['h'] and ['l']: ["hl"] and ["lh"] are taken as length modifiers, and
    ["%hld"] becomes an entry of type [TYPE_INT]. *)
Theorem length_accepts_mixed_pair :
  parse_length "hld" = Some ("hl", "d") /\
  parse_length "lhd" = Some ("lh", "d") /\
  find_format_specifiers (Some "%hld")
    = Ok [{| substr := "%hld"; type := TYPE_INT |}] /\
  find_format_specifiers (Some "%lhu")
    = Ok [{| substr := "%lhu"; type := TYPE_UINT |}].
Proof. repeat split; reflexivity. Qed.



(** C7 (code_bug).  None of the buffer-sink entry points listed in README.md
    is declared or defined by display.h. *)
Theorem buffer_api_missing :
  forallb (fun n => negb (existsb (String.eqb n) display_api)) readme_buffer_api
  = true.
Proof. reflexivity. Qed.

(** C9.  Markers are paired with entries by count: in ["%k %d %s"] the
    dropped marker ["%k"] takes the entry of ["%d"] (one argument, two
    characters skipped), ["%d"] takes the entry of ["%s"], and ["%s"] falls
    back to a literal ['%'].  In ["%k %5d x"] the entry ["%5d"] taken at
    ["%k"] makes the driver skip three characters, the space included, and
    the real ["%5d"] is then copied as text. *)
Theorem markers_paired_by_count (native : string -> ctype -> arg -> string)
  (a1 a2 : arg) (rest : list arg) :
  display_vprint native (Some "%k %d %s") (a1 :: a2 :: rest)
  = Ok {| v_ret := 2;
          v_out := native "%d" CInt a1 ++ " " ++ native "%s" CCharPtr a2 ++ " %s";
          v_mem := []; v_args := rest |} /\
  display_vprint native (Some "%k %5d x") (a1 :: a2 :: rest)
  = Ok {| v_ret := 1; v_out := native "%5d" CInt a1 ++ "%5d x";
          v_mem := []; v_args := a2 :: rest |}.
Proof.
  split; vm_compute; rewrite !string_app_assoc; reflexivity.
Qed.

Lemma string_length_app (a b : string) :
  String.length (a ++ b) = (String.length a + String.length b)%nat.
Proof. induction a as [|x a IH]; simpl; [reflexivity | now rewrite IH]. Qed.

Lemma substring_app_tail (a q : string) :
  substring (String.length a) (String.length q) (a ++ q) = q.
Proof.
  induction a as [|c a IH]; simpl.
  - induction q as [|c q IH]; simpl; [reflexivity | now rewrite IH].
  - exact IH.
Qed.

Lemma advance_app (a q : string) :
  advance (String.length a) (a ++ q) = Some q.
Proof.
  unfold advance. rewrite string_length_app.
  replace (String.length a + String.length q - String.length a)%nat
    with (String.length q) by lia.
  rewrite substring_app_tail.
  now replace (String.length a <=? String.length a + String.length q)%nat
    with true by (symmetry; apply Nat.leb_le; lia).
Qed.

Lemma ref_kind_cases (ty : var_type) (k : ptr_kind) :
  ref_kind ty = Some k ->
  vprint_case ty = StoreCount k /\ vfprint_case ty = StoreCount k.
Proof. destruct ty; simpl; intro H; inversion H; auto. Qed.

(** C4 (counterexample).  Two templates the drivers can receive.  In
    ["{}"] a [display_fn] that writes "X" and then returns -1 leaves its
    text on stdout, so the field does not come out empty.  In
    ["%k{} %5d"] the invalid marker ["%k"] has no entry, so the driver
    prints the entry ["%5d"] there and jumps three characters, over the
    ['{'] of ["{}"]: that occurrence of ["{}"] consumes no opaque value, and
    the value passed for it is left on the cursor. *)
Lemma opaque_claim_counterexample :
  display_vprint demo_native (Some "{}") [ADisp (Some failing_display)]
    = Ok {| v_ret := 0; v_out := "X"; v_mem := []; v_args := [] |} /\
  find_format_specifiers (Some "%k{} %5d")
    = Ok [{| substr := "%5d"; type := TYPE_INT |}] /\
  display_vprint demo_native (Some "%k{} %5d") [AInt 7; ADisp (Some ok_display)]
    = Ok {| v_ret := 1; v_out := "7} %5d"; v_mem := [];
            v_args := [ADisp (Some ok_display)] |} /\
  display_vfprint demo_native (Some 1%nat) (Some "%k{} %5d")
      [AInt 7; ADisp (Some ok_display)]
    = Ok {| v_ret := 1; v_out := "7} %5d"; v_mem := [];
            v_args := [ADisp (Some ok_display)] |}.
Proof. vm_compute. repeat split. Qed.

(** C4 (amended).  When either driver's position is at ["{}"] it consumes
    exactly one opaque value.  If the value is [NULL], lacks the rendering
    function of the sink or lacks [self], the driver writes nothing, does
    not count it and continues after the delimiter.  If the rendering
    function returns -1 the driver adds nothing and does not count it
    either; the text the rendering function itself wrote stays on the sink.
    Otherwise the rendered text is written and the field is counted. *)
Theorem opaque_field_skipped (native : string -> ctype -> arg -> string)
  (file : nat) (specs : list format_spec_t) (st : dstate) (q : string)
  (d : option display_t) (rest : list arg)
  (Hp : st_p st = String "{" (String "}" q))
  (Ha : st_args st = ADisp d :: rest) :
  ((match d with None => True
     | Some dv => display_fn dv = None \/ self dv = None end) ->
   vprint_step native specs st = Next (skipped st q rest "")) /\
  (forall dv f s txt, d = Some dv -> display_fn dv = Some f ->
   self dv = Some s -> f s = (txt, (-1)%Z) ->
   vprint_step native specs st = Next (skipped st q rest txt)) /\
  (forall dv f s txt rc, d = Some dv -> display_fn dv = Some f ->
   self dv = Some s -> f s = (txt, rc) -> rc <> (-1)%Z ->
   vprint_step native specs st = Next (counted st q rest txt)) /\
  ((match d with None => True
     | Some dv => fdisplay_fn dv = None \/ self dv = None end) ->
   vfprint_step native file specs st = Next (skipped st q rest "")) /\
  (forall dv f s txt, d = Some dv -> fdisplay_fn dv = Some f ->
   self dv = Some s -> f s file = (txt, (-1)%Z) ->
   vfprint_step native file specs st = Next (skipped st q rest txt)) /\
  (forall dv f s txt rc, d = Some dv -> fdisplay_fn dv = Some f ->
   self dv = Some s -> f s file = (txt, rc) -> rc <> (-1)%Z ->
   vfprint_step native file specs st = Next (counted st q rest txt)).
Proof.
  unfold vprint_step, vfprint_step, skipped, counted; rewrite Hp, Ha; simpl.
  repeat split.
  - destruct d as [dv|]; [|now rewrite string_app_nil_r].
    intros [H|H]; rewrite H; [|destruct (display_fn dv)];
      now rewrite string_app_nil_r.
  - intros dv f s txt -> -> -> ->. reflexivity.
  - intros dv f s txt rc -> -> -> -> Hrc.
    apply Z.eqb_neq in Hrc. now rewrite Hrc.
  - destruct d as [dv|]; [|now rewrite string_app_nil_r].
    intros [H|H]; rewrite H; [|destruct (fdisplay_fn dv)];
      now rewrite string_app_nil_r.
  - intros dv f s txt -> -> -> ->. reflexivity.
  - intros dv f s txt rc -> -> -> -> Hrc.
    apply Z.eqb_neq in Hrc. now rewrite Hrc.
Qed.

Lemma opaque_field_skipped_witness :
  vprint_step demo_native [] (init_state "{}!" [ADisp None])
    = Next (skipped (init_state "{}!" [ADisp None]) "!" [] "") /\
  vprint_step demo_native [] (init_state "{}!" [ADisp (Some failing_display)])
    = Next (skipped (init_state "{}!" [ADisp (Some failing_display)]) "!" [] "X") /\
  vprint_step demo_native [] (init_state "{}!" [ADisp (Some ok_display)])
    = Next (counted (init_state "{}!" [ADisp (Some ok_display)]) "!" [] "OK") /\
  vfprint_step demo_native 3 [] (init_state "{}!" [ADisp (Some ok_display)])
    = Next (skipped (init_state "{}!" [ADisp (Some ok_display)]) "!" [] "").
Proof.
  destruct (opaque_field_skipped demo_native 3 [] (init_state "{}!" [ADisp None])
              "!" None [] eq_refl eq_refl) as (A1 & _).
  destruct (opaque_field_skipped demo_native 3 []
              (init_state "{}!" [ADisp (Some failing_display)]) "!"
              (Some failing_display) [] eq_refl eq_refl) as (_ & B2 & _).
  destruct (opaque_field_skipped demo_native 3 []
              (init_state "{}!" [ADisp (Some ok_display)]) "!"
              (Some ok_display) [] eq_refl eq_refl) as (_ & _ & C3 & D4 & _).
  split; [|split; [|split]].
  - apply A1. exact I.
  - apply (B2 failing_display (fun _ => ("X", (-1)%Z)) 1 "X"); reflexivity.
  - apply (C3 ok_display (fun _ => ("OK", 2%Z)) 1 "OK" 2%Z); try reflexivity.
    discriminate.
  - apply D4. left; reflexivity.
Defined.

(** C5.  At a write-count marker (its entry is [e], of one of the eight
    reference tags), either driver takes one pointer from the cursor, writes
    no text, stores [spec_count + struct_count] through it, moves past the
    marker and counts the marker as a native field. *)
Theorem write_count_marker (native : string -> ctype -> arg -> string)
  (file : nat) (specs : list format_spec_t) (st : dstate) (e : format_spec_t)
  (c : ascii) (m q : string) (k : ptr_kind) (ad : nat) (rest : list arg)
  (He : nth_error specs (st_idx st) = Some e)
  (Hs : substr e = String "%" (String c m))
  (Hc : Ascii.eqb c "%" = false)
  (Hp : st_p st = substr e ++ q)
  (Hk : ref_kind (type e) = Some k)
  (Ha : st_args st = APtr ad :: rest) :
  let st' := {| st_p := q; st_idx := S (st_idx st); st_args := rest;
                st_spec_count := S (st_spec_count st);
                st_struct_count := st_struct_count st;
                st_out := st_out st;
                st_mem := app (st_mem st)
                  [(k, ad, Z.of_nat (st_spec_count st + st_struct_count st))] |} in
  vprint_step native specs st = Next st' /\
  vfprint_step native file specs st = Next st'.
Proof.
  intro st'.
  destruct (ref_kind_cases _ _ Hk) as [Hv Hf].
  assert (Hlt : (st_idx st <? length specs)%nat = true).
  { apply Nat.ltb_lt, nth_error_Some. now rewrite He. }
  assert (Hadv : advance (String.length (substr e)) (st_p st) = Some q).
  { rewrite Hp. apply advance_app. }
  unfold vprint_step, vfprint_step.
  rewrite Hp, Hs; cbn [String.append cur]; rewrite Hc; simpl.
  rewrite Hlt, He, Hv, Hf.
  unfold native_field; rewrite Ha, Hadv. split; reflexivity.
Qed.

Lemma write_count_marker_witness :
  vprint_step demo_native [{| substr := "%n"; type := TYPE_POINTER_INT |}]
    (init_state "%n." [APtr 7])
  = Next {| st_p := "."; st_idx := 1; st_args := []; st_spec_count := 1;
            st_struct_count := 0; st_out := ""; st_mem := [(PInt, 7, 0%Z)] |}.
Proof.
  exact (proj1 (write_count_marker demo_native 3
    [{| substr := "%n"; type := TYPE_POINTER_INT |}] (init_state "%n." [APtr 7])
    {| substr := "%n"; type := TYPE_POINTER_INT |} "n" "" "." PInt 7 []
    eq_refl eq_refl eq_refl eq_refl eq_refl eq_refl)).
Defined.

Lemma vprint_vfprint_case (ty : var_type) : vprint_case ty = vfprint_case ty.
Proof. destruct ty; reflexivity. Qed.

Lemma native_field_args native act e st st' (P : arg -> Prop) :
  native_field native act e st = Next st' ->
  Forall P (st_args st) -> Forall P (st_args st').
Proof.
  unfold native_field. intros H HP.
  destruct act as [t|k|].
  - destruct (st_args st) as [|a r] eqn:Ea; [discriminate|].
    simpl in H. destruct (advance _ _); inversion H; subst; simpl.
    now inversion HP.
  - destruct (st_args st) as [|[] r] eqn:Ea; try discriminate.
    destruct (advance _ _); inversion H; subst; simpl. now inversion HP.
  - destruct (advance _ _); inversion H; subst; simpl. exact HP.
Qed.

Ltac split_matches :=
  repeat match goal with
  | H : context [match ?x with _ => _ end] |- _ => destruct x eqn:?
  | |- context [match ?x with _ => _ end] => destruct x eqn:?
  end.

(** Every step of display_vprint leaves a suffix of the cursor. *)
Lemma vprint_step_args native specs st st' (P : arg -> Prop) :
  vprint_step native specs st = Next st' ->
  Forall P (st_args st) -> Forall P (st_args st').
Proof.
  unfold vprint_step. intros H HP.
  destruct (st_p st) as [|c p1]; [discriminate|].
  destruct (Ascii.eqb c NUL); [discriminate|].
  destruct (Ascii.eqb c "%" && negb (Ascii.eqb (cur p1) "%")).
  - destruct (st_idx st <? length specs)%nat.
    + destruct (nth_error specs (st_idx st)); [|discriminate].
      eapply native_field_args; eauto.
    + inversion H; subst; exact HP.
  - destruct (Ascii.eqb c "%" && Ascii.eqb (cur p1) "%").
    + destruct (skip2 _); inversion H; subst; exact HP.
    + destruct (Ascii.eqb c "{" && Ascii.eqb (cur p1) "}").
      * destruct (skip2 _); [|discriminate].
        destruct (st_args st) as [|[] r]; try discriminate.
        inversion HP; subst.
        split_matches; inversion H; subst; simpl; assumption.
      * inversion H; subst; exact HP.
Qed.

(** Under [caps_agree], one step of the two drivers is the same. *)
Lemma vprint_vfprint_step native file specs st :
  Forall (caps_agree file) (st_args st) ->
  vprint_step native specs st = vfprint_step native file specs st.
Proof.
  intros HA. unfold vprint_step, vfprint_step.
  destruct (st_p st) as [|c p1]; [reflexivity|].
  destruct (Ascii.eqb c NUL); [reflexivity|].
  destruct (Ascii.eqb c "%" && negb (Ascii.eqb (cur p1) "%")).
  - destruct (st_idx st <? length specs)%nat; [|reflexivity].
    destruct (nth_error specs (st_idx st)); [|reflexivity].
    now rewrite vprint_vfprint_case.
  - destruct (Ascii.eqb c "%" && Ascii.eqb (cur p1) "%"); [reflexivity|].
    destruct (Ascii.eqb c "{" && Ascii.eqb (cur p1) "}"); [|reflexivity].
    destruct (skip2 _) as [q|]; [|reflexivity].
    destruct (st_args st) as [|a r]; [reflexivity|].
    destruct a as [| | | |[dv|]]; try reflexivity.
    inversion HA as [|? ? Hd _]; subst.
    destruct Hd as (g & h & Hg & Hh & Hgh).
    rewrite Hg, Hh.
    destruct (self dv) as [s|]; [|reflexivity].
    destruct (Hgh s eq_refl) as [Ht Hr].
    destruct (g s) as [t1 r1], (h s file) as [t2 r2]; simpl in Ht, Hr.
    subst t2. now rewrite Hr.
Qed.

Lemma vprint_vfprint_loop native file specs fuel st :
  Forall (caps_agree file) (st_args st) ->
  run_loop (vprint_step native specs) fuel st
  = run_loop (vfprint_step native file specs) fuel st.
Proof.
  revert st; induction fuel as [|fuel IH]; intros st HA; [reflexivity|].
  simpl. rewrite <- (vprint_vfprint_step native file specs st HA).
  destruct (vprint_step native specs st) as [|st'|] eqn:E; try reflexivity.
  apply IH. eapply vprint_step_args; eauto.
Qed.

(** C10.  When every opaque value in the cursor has both [display_fn] and
    [fdisplay_fn], writing the same text and failing together, display_vprint
    and display_vfprint (on a non-NULL stream) write the same text, make the
    same [%n] stores, consume the same arguments and return the same value,
    for every template. *)
Theorem vprint_vfprint_same (native : string -> ctype -> arg -> string)
  (file : nat) (format : option string) (args : list arg)
  (HA : Forall (caps_agree file) args) :
  display_vprint native format args = display_vfprint native (Some file) format args.
Proof.
  destruct format as [t|]; [|reflexivity].
  unfold display_vprint, display_vfprint.
  destruct (find_format_specifiers (Some t)); try reflexivity.
  now rewrite (vprint_vfprint_loop native file a (S (String.length t)) (init_state t args) HA).
Qed.

Lemma vprint_vfprint_same_witness :
  display_vprint demo_native (Some "%d {}%%")
    [AInt 4; ADisp (Some {| display_fn := Some (fun _ => ("A", 1%Z));
                            fdisplay_fn := Some (fun _ _ => ("A", 1%Z));
                            sndisplay_fn := None; self := Some 2 |})]
  = display_vfprint demo_native (Some 5) (Some "%d {}%%")
    [AInt 4; ADisp (Some {| display_fn := Some (fun _ => ("A", 1%Z));
                            fdisplay_fn := Some (fun _ _ => ("A", 1%Z));
                            sndisplay_fn := None; self := Some 2 |})].
Proof.
  apply vprint_vfprint_same.
  repeat constructor. simpl.
  exists (fun _ => ("A", 1%Z)), (fun _ _ => ("A", 1%Z)).
  repeat split.
Defined.

(** *** A well-formed marker is scanned as one entry *)

Lemma str_has_In (s : string) (c : ascii) :
  str_has s c = true -> In c (list_ascii_of_string s).
Proof.
  induction s as [|d s IH]; simpl; [discriminate|].
  intros H. apply orb_true_iff in H as [H|H].
  - left. now apply Ascii.eqb_eq.
  - right. auto.
Qed.

Lemma skip_while_all (f : ascii -> bool) (s y : string) :
  all_chars f s = true -> skip_while f (s ++ y) = skip_while f y.
Proof.
  induction s as [|c s IH]; simpl; [reflexivity|].
  intros H. apply andb_prop in H as [H1 H2]. rewrite H1. auto.
Qed.

Lemma skip_while_stop (f : ascii -> bool) (y : string) :
  hd_ok (fun x => negb (f x)) y -> skip_while f y = Some y.
Proof.
  destruct y as [|x y]; simpl; [contradiction|].
  destruct (f x); [discriminate | reflexivity].
Qed.

Lemma all_chars_flags (s : string) :
  all_chars (str_has "-+ #0") s = true -> all_chars (strchr "-+ #0") s = true.
Proof.
  induction s as [|c s IH]; cbn [all_chars]; [reflexivity|].
  intros H. apply andb_prop in H as [H1 H2].
  unfold strchr at 1. rewrite H1, orb_true_r. cbn [andb]. auto.
Qed.

Lemma strncpy_app_head (a b : string) :
  all_chars not_nul a = true -> strncpy_str (String.length a) (a ++ b) = a.
Proof.
  induction a as [|c a IH]; [reflexivity|].
  cbn [all_chars String.length String.append strncpy_str].
  intro H. apply andb_prop in H as [H1 H2]. unfold not_nul in H1.
  apply negb_true_iff in H1. rewrite H1, IH; auto.
Qed.

(** The copy is a prefix of the source without a ['\0']; it is cut short
    only at a ['\0'] (or the end of the string). *)
Lemma strncpy_spec (n : nat) (s : string) :
  exists post, s = strncpy_str n s ++ post /\
    all_chars not_nul (strncpy_str n s) = true /\
    (String.length (strncpy_str n s) = n \/ cur post = NUL).
Proof.
  revert s; induction n as [|n IH]; intros s.
  - exists s. auto.
  - destruct s as [|c s].
    + exists EmptyString. auto.
    + cbn [strncpy_str]. destruct (Ascii.eqb c NUL) eqn:Ec.
      * exists (String c s). split; [reflexivity|]. split; [reflexivity|].
        right. now apply Ascii.eqb_eq.
      * destruct (IH s) as (post & Hs & Hn & Hl). exists post.
        cbn [String.append all_chars String.length]. split; [now rewrite <- Hs|].
        split; [rewrite Hn; unfold not_nul; now rewrite Ec|].
        destruct Hl as [Hl|Hl]; [left; lia | right; exact Hl].
Qed.

Lemma all_chars_app (f : ascii -> bool) (a b : string) :
  all_chars f (a ++ b) = all_chars f a && all_chars f b.
Proof.
  induction a as [|c a IH]; cbn [all_chars String.append]; [reflexivity|].
  now rewrite IH, andb_assoc.
Qed.

Lemma all_chars_impl (f g : ascii -> bool) (s : string) :
  (forall c, f c = true -> g c = true) ->
  all_chars f s = true -> all_chars g s = true.
Proof.
  intros Hfg. induction s as [|c s IH]; cbn [all_chars]; [reflexivity|].
  intro H. apply andb_prop in H as [H1 H2]. now rewrite (Hfg c H1), IH.
Qed.

Lemma str_has_not_nul (s : string) (c : ascii) :
  all_chars not_nul s = true -> str_has s c = true -> not_nul c = true.
Proof.
  induction s as [|d s IH]; cbn [all_chars str_has]; [discriminate|].
  intros H1 H2. apply andb_prop in H1 as [Hd Hs].
  apply orb_true_iff in H2 as [H2|H2]; [|auto].
  apply Ascii.eqb_eq in H2. now subst d.
Qed.

Lemma isdigit_not_nul (c : ascii) : isdigit c = true -> not_nul c = true.
Proof.
  unfold not_nul. destruct (Ascii.eqb_spec c NUL) as [->|]; [discriminate|reflexivity].
Qed.

(** A well-formed marker holds no ['\0']. *)
Lemma wf_marker_not_nul (mk : marker) :
  wf_marker mk = true -> all_chars not_nul (marker_text mk) = true.
Proof.
  intros Hwf. unfold wf_marker in Hwf.
  apply andb_prop in Hwf as [Hwf Hc].
  apply andb_prop in Hwf as [Hwf HL].
  apply andb_prop in Hwf as [Hwf Hpr].
  apply andb_prop in Hwf as [Hfl Hw].
  destruct mk as [fl w pr len c]; cbn [m_flags m_width m_prec m_len m_conv] in *.
  unfold marker_text, marker_body, one; cbn [m_flags m_width m_prec m_len m_conv].
  cbn [all_chars]. rewrite !all_chars_app. cbn [all_chars].
  rewrite (all_chars_impl _ _ fl (fun x => str_has_not_nul "-+ #0" x eq_refl) Hfl).
  rewrite (str_has_not_nul "diouxXeEfFgGaAcsp" c eq_refl Hc).
  replace (all_chars not_nul len) with true.
  2:{ symmetry. apply existsb_exists in HL as (l & Hl & Ee).
      apply String.eqb_eq in Ee. subst l. simpl in Hl.
      repeat (destruct Hl as [<-|Hl]; [reflexivity|]). contradiction. }
  destruct w as [| |d ds]; destruct pr as [| |ds']; cbn [width_text prec_text all_chars] in *;
    repeat match goal with H : _ && _ = true |- _ => apply andb_prop in H as [? ?] end;
    repeat match goal with
           | H : str_has "123456789" ?d = true |- _ =>
             rewrite (str_has_not_nul "123456789" d eq_refl H); clear H
           | H : all_chars isdigit ?ds = true |- _ =>
             rewrite (all_chars_impl _ _ ds isdigit_not_nul H); clear H
           end; reflexivity.
Qed.

Lemma length_conv_stage (len : string) (c : ascii) (rest : string) :
  existsb (String.eqb len) valid_lengths = true ->
  str_has "diouxXeEfFgGaAcsp" c = true ->
  parse_length (len ++ String c rest) = Some (len, String c rest) /\
  hd_ok after_prec (len ++ String c rest) /\
  exists ty t, spec_type c len = Some ty /\ vprint_case ty = Fmt t.
Proof.
  intros HL Hc.
  apply existsb_exists in HL as [l [Hin Heq]].
  apply String.eqb_eq in Heq; subst l.
  apply str_has_In in Hc.
  simpl in Hin, Hc.
  repeat (destruct Hin as [<-|Hin]; [|]); [| | | | | | | | | contradiction].
  all: repeat (destruct Hc as [<-|Hc]; [|]); [| | | | | | | | | | | | | | | | | contradiction].
  all: split; [reflexivity | split; [exact eq_refl | eexists; eexists; split; reflexivity]].
Qed.

Lemma isdigit_not_star (d : ascii) : isdigit d = true -> Ascii.eqb d "*" = false.
Proof. destruct (Ascii.eqb_spec d "*") as [->|]; [discriminate | reflexivity]. Qed.

Lemma nonzero_digit (d : ascii) :
  str_has "123456789" d = true -> isdigit d = true /\ after_flags d = true.
Proof.
  intros H. apply str_has_In in H. simpl in H.
  repeat (destruct H as [<-|H]; [split; reflexivity|]). contradiction.
Qed.

Lemma flag_not_pct (x : ascii) : str_has "-+ #0" x = true -> Ascii.eqb x "%" = false.
Proof.
  intros H. apply str_has_In in H. simpl in H.
  repeat (destruct H as [<-|H]; [reflexivity|]). contradiction.
Qed.

Lemma after_width_parts (x : ascii) :
  after_width x = true ->
  after_flags x = true /\ isdigit x = false /\ Ascii.eqb x "*" = false.
Proof.
  unfold after_width. intros H.
  apply andb_prop in H as [H Hs]. apply andb_prop in H as [Hf Hd].
  apply negb_true_iff in Hs, Hd. auto.
Qed.

Lemma after_prec_parts (x : ascii) :
  after_prec x = true -> after_width x = true /\ Ascii.eqb x "." = false.
Proof.
  unfold after_prec. intros H. apply andb_prop in H as [Hw Hd].
  apply negb_true_iff in Hd. auto.
Qed.

Lemma digits_stage (ds y : string) :
  all_chars isdigit ds = true -> hd_ok after_width y ->
  star_or_digits (ds ++ y) = Some y.
Proof.
  intros Hds Hy. destruct y as [|x y]; [contradiction|]. cbn [hd_ok] in Hy.
  destruct (after_width_parts x Hy) as (_ & Hd & Hs).
  unfold star_or_digits.
  replace (Ascii.eqb (cur (ds ++ String x y)) "*") with false.
  - rewrite (skip_while_all _ _ _ Hds). simpl. now rewrite Hd.
  - destruct ds as [|d ds]; simpl; [now rewrite Hs|].
    cbn [all_chars] in Hds. apply andb_prop in Hds as [Hd' _].
    now rewrite (isdigit_not_star d Hd').
Qed.

Lemma prec_stage (pr : prec_part) (z : string) :
  match pr with PDigits ds => all_chars isdigit ds | _ => true end = true ->
  hd_ok after_prec z ->
  (if Ascii.eqb (cur (prec_text pr ++ z)) "." then
     let* q := incr (prec_text pr ++ z) in star_or_digits q
   else Some (prec_text pr ++ z)) = Some z /\
  hd_ok after_width (prec_text pr ++ z).
Proof.
  intros Hpr Hz. destruct z as [|x z]; [contradiction|]. cbn [hd_ok] in Hz.
  destruct (after_prec_parts x Hz) as [Hw Hdot].
  destruct pr as [| |ds]; cbn [prec_text String.append].
  - cbn [cur]. rewrite Hdot. split; [reflexivity | exact Hw].
  - split; reflexivity.
  - split; [|reflexivity]. cbn [cur incr]. rewrite Ascii.eqb_refl.
    now apply digits_stage.
Qed.

Lemma width_stage (w : width_part) (y : string) :
  match w with
  | WDigits d ds => str_has "123456789" d && all_chars isdigit ds
  | _ => true
  end = true ->
  hd_ok after_width y ->
  star_or_digits (width_text w ++ y) = Some y /\
  hd_ok after_flags (width_text w ++ y).
Proof.
  intros Hw Hy. destruct w as [| |d ds]; cbn [width_text String.append].
  - split; [apply (digits_stage "" y eq_refl Hy)|].
    destruct y as [|x y]; [contradiction|]. exact (proj1 (after_width_parts x Hy)).
  - split; reflexivity.
  - apply andb_prop in Hw as [Hd Hds].
    destruct (nonzero_digit d Hd) as [Hd' Hf].
    split; [|exact Hf].
    apply (digits_stage (String d ds)); [cbn [all_chars]; now rewrite Hd', Hds | exact Hy].
Qed.

Lemma flags_stage (fl y : string) :
  all_chars (str_has "-+ #0") fl = true -> hd_ok after_flags y ->
  skip_while (strchr "-+ #0") (fl ++ y) = Some y /\
  Ascii.eqb (cur (fl ++ y)) "%" = false.
Proof.
  intros Hfl Hy. split.
  - rewrite (skip_while_all _ _ _ (all_chars_flags fl Hfl)).
    apply skip_while_stop. destruct y as [|x y]; [contradiction|].
    cbn [hd_ok] in *. unfold after_flags in Hy.
    now apply andb_prop in Hy as [Hy _].
  - destruct fl as [|x fl]; cbn [String.append cur].
    + destruct y as [|x y]; [contradiction|]. cbn [hd_ok cur] in *.
      unfold after_flags in Hy. apply andb_prop in Hy as [_ Hy].
      now apply negb_true_iff.
    + cbn [all_chars] in Hfl. apply andb_prop in Hfl as [Hx _].
      now apply flag_not_pct.
Qed.

Lemma parse_wf_marker (mk : marker) (rest : string) :
  wf_marker mk = true ->
  exists ty t,
    vprint_case ty = Fmt t /\
    parse_marker (marker_text mk ++ rest)
      = Some (Some {| substr := marker_text mk; type := ty |}, rest) /\
    Ascii.eqb (cur (marker_body mk ++ rest)) "%" = false.
Proof.
  intros Hwf. pose proof (wf_marker_not_nul mk Hwf) as Hnn. unfold wf_marker in Hwf.
  apply andb_prop in Hwf as [Hwf Hc].
  apply andb_prop in Hwf as [Hwf HL].
  apply andb_prop in Hwf as [Hwf Hpr].
  apply andb_prop in Hwf as [Hfl Hw].
  destruct mk as [fl w pr len c]; cbn [m_flags m_width m_prec m_len m_conv] in *.
  destruct (length_conv_stage len c rest HL Hc) as (HA & HzA & ty & t & Hty & Ht).
  destruct (prec_stage pr _ Hpr HzA) as [HP HzP].
  destruct (width_stage w _ Hw HzP) as [HW HzW].
  destruct (flags_stage fl _ Hfl HzW) as [HF Hpct].
  assert (Hb : marker_body {| m_flags := fl; m_width := w; m_prec := pr;
                              m_len := len; m_conv := c |} ++ rest
               = fl ++ width_text w ++ prec_text pr ++ len ++ String c rest).
  { unfold marker_body, one; cbn [m_flags m_width m_prec m_len m_conv].
    now rewrite !string_app_assoc. }
  exists ty, t. split; [exact Ht|]. rewrite Hb. split; [|exact Hpct].
  unfold parse_marker.
  replace (incr (marker_text _ ++ rest)) with (Some (fl ++ width_text w ++ prec_text pr ++ len ++ String c rest))
    by (unfold marker_text; cbn [String.append incr]; now rewrite Hb).
  rewrite HF, HW, HP, HA. cbn [cur incr].
  replace (strchr "diouxXeEfFgGaAcspn%" c) with true
    by (symmetry; apply str_has_In in Hc; simpl in Hc;
        repeat (destruct Hc as [<-|Hc]; [reflexivity|]); contradiction).
  rewrite string_length_app, Nat.add_sub, (strncpy_app_head _ _ Hnn), Hty.
  reflexivity.
Qed.

(** C8.  At every well-formed value marker with an indirect width or
    precision, wherever it stands in the template: when the driver's
    position is at the marker and its current entry [e] is the one the
    scanner makes for the marker, either driver takes exactly one argument
    from the cursor and hands libc the marker's own text, ['*'] included,
    with that one argument; the next argument (which libc expects after the
    width) is left in the cursor. *)
Theorem star_marker_one_argument (native : string -> ctype -> arg -> string)
  (file : nat) (specs : list format_spec_t) (st : dstate) (mk : marker)
  (e : format_spec_t) (q : string) (a : arg) (rest : list arg)
  (Hwf : wf_marker mk = true) (Hstar : has_star mk = true)
  (He : nth_error specs (st_idx st) = Some e)
  (Hm : parse_marker (marker_text mk ++ q) = Some (Some e, q))
  (Hp : st_p st = marker_text mk ++ q)
  (Ha : st_args st = a :: rest) :
  substr e = marker_text mk /\ str_has (marker_text mk) "*" = true /\
  exists t,
    let st' := {| st_p := q; st_idx := S (st_idx st); st_args := rest;
                  st_spec_count := S (st_spec_count st);
                  st_struct_count := st_struct_count st;
                  st_out := st_out st ++ native (marker_text mk) t a;
                  st_mem := st_mem st |} in
    vprint_step native specs st = Next st' /\
    vfprint_step native file specs st = Next st'.
Proof.
  destruct (parse_wf_marker mk q Hwf) as (ty & t & Ht & Hpm & Hc).
  rewrite Hpm in Hm. injection Hm as <-.
  split; [reflexivity|]. split.
  - assert (Happ : forall s u, str_has u "*" = true -> str_has (s ++ u) "*" = true).
    { induction s as [|x s IH]; intros u H; cbn [String.append str_has];
        [exact H | now rewrite IH, orb_true_r]. }
    unfold marker_text, marker_body. cbn [str_has].
    apply orb_true_iff; right. apply Happ.
    unfold has_star in Hstar.
    destruct (m_width mk) as [| |d ds], (m_prec mk) as [| |ps];
      try discriminate; try reflexivity.
    apply (Happ (String d ds)). reflexivity.
  - exists t. cbv zeta.
    assert (Hlt : (st_idx st <? length specs)%nat = true).
    { apply Nat.ltb_lt, nth_error_Some. now rewrite He. }
    assert (Hadv : advance (String.length (marker_text mk)) (st_p st) = Some q).
    { rewrite Hp. apply advance_app. }
    assert (Hp' : st_p st = String "%" (marker_body mk ++ q)) by exact Hp.
    unfold vprint_step, vfprint_step. rewrite Hp'. cbn beta iota.
    rewrite Hc. simpl.
    rewrite Hlt, He. cbn [type].
    rewrite <- (vprint_vfprint_case ty), Ht.
    unfold native_field. rewrite Ha. cbn [va_arg fst snd substr].
    rewrite Hadv. split; reflexivity.
Qed.

Lemma star_marker_one_argument_witness :
  substr {| substr := "%*d"; type := TYPE_INT |} = "%*d" /\
  str_has "%*d" "*" = true /\
  exists t,
    let st' := {| st_p := one "010"; st_idx := 1; st_args := [AInt 42];
                  st_spec_count := 1; st_struct_count := 0;
                  st_out := "w=" ++ demo_native "%*d" t (AInt 8); st_mem := [] |} in
    vprint_step demo_native [{| substr := "%*d"; type := TYPE_INT |}]
      {| st_p := "%*d" ++ one "010"; st_idx := 0; st_args := [AInt 8; AInt 42];
         st_spec_count := 0; st_struct_count := 0; st_out := "w="; st_mem := [] |}
      = Next st' /\
    vfprint_step demo_native 3 [{| substr := "%*d"; type := TYPE_INT |}]
      {| st_p := "%*d" ++ one "010"; st_idx := 0; st_args := [AInt 8; AInt 42];
         st_spec_count := 0; st_struct_count := 0; st_out := "w="; st_mem := [] |}
      = Next st'.
Proof.
  exact (star_marker_one_argument demo_native 3
    [{| substr := "%*d"; type := TYPE_INT |}]
    {| st_p := "%*d" ++ one "010"; st_idx := 0; st_args := [AInt 8; AInt 42];
       st_spec_count := 0; st_struct_count := 0; st_out := "w="; st_mem := [] |}
    {| m_flags := ""; m_width := WStar; m_prec := PNone; m_len := "";
       m_conv := "d" |}
    {| substr := "%*d"; type := TYPE_INT |} (one "010") (AInt 8) [AInt 42]
    eq_refl eq_refl eq_refl eq_refl eq_refl eq_refl).
Defined.

(** ** Further properties of the scanner and the drivers *)

(** *** Positions only move forward *)

Lemma incr_length (p q : string) :
  incr p = Some q -> String.length p = S (String.length q).
Proof. destruct p; simpl; intro H; inversion H; reflexivity. Qed.

Lemma skip_while_length (f : ascii -> bool) (p q : string) :
  skip_while f p = Some q -> (String.length q <= String.length p)%nat.
Proof.
  revert q; induction p as [|c p IH]; intros q; simpl.
  - destruct (f NUL); intro H; inversion H; reflexivity.
  - destruct (f c); intro H; [specialize (IH q H); lia | inversion H; simpl; lia].
Qed.

Lemma star_or_digits_length (p q : string) :
  star_or_digits p = Some q -> (String.length q <= String.length p)%nat.
Proof.
  unfold star_or_digits. destruct (Ascii.eqb (cur p) "*").
  - intro H. apply incr_length in H. lia.
  - apply skip_while_length.
Qed.

Lemma parse_length_length (p l q : string) :
  parse_length p = Some (l, q) -> (String.length q <= String.length p)%nat.
Proof.
  unfold parse_length. intro H. split_matches; inversion H; subst;
    repeat match goal with E : incr _ = Some _ |- _ => apply incr_length in E end;
    lia.
Qed.

Lemma substring_length (n m : nat) (s : string) :
  (n + m <= String.length s)%nat -> String.length (substring n m s) = m.
Proof.
  revert n m; induction s as [|c s IH]; intros n m H.
  - simpl in H. assert (n = 0 /\ m = 0)%nat as [-> ->] by lia. reflexivity.
  - destruct n as [|n]; simpl in *.
    + destruct m as [|m]; simpl; [reflexivity|]. rewrite IH; lia.
    + apply IH. lia.
Qed.

Ltac lengths :=
  repeat match goal with
  | E : incr _ = Some _ |- _ => apply incr_length in E
  | E : skip_while _ _ = Some _ |- _ => apply skip_while_length in E
  | E : star_or_digits _ = Some _ |- _ => apply star_or_digits_length in E
  | E : parse_length _ = Some (_, _) |- _ => apply parse_length_length in E
  end.

Lemma parse_marker_bounds (start q : string) (o : option format_spec_t) :
  parse_marker start = Some (o, q) ->
  (String.length q < String.length start)%nat /\
  forall e, o = Some e ->
    (String.length q + 2 <= String.length start)%nat /\
    substr e = strncpy_str (String.length start - String.length q) start /\
    exists c len, spec_type c len = Some (type e).
Proof.
  unfold parse_marker. intro H.
  destruct (incr start) as [p0|] eqn:E0; [|discriminate].
  destruct (skip_while _ p0) as [p1|] eqn:E1; [|discriminate].
  destruct (star_or_digits p1) as [p2|] eqn:E2; [|discriminate].
  destruct (if Ascii.eqb (cur p2) "." then _ else _) as [p3|] eqn:E3; [|discriminate].
  assert (L3 : (String.length p3 <= String.length p2)%nat).
  { destruct (Ascii.eqb (cur p2) "."); [|inversion E3; lia].
    destruct (incr p2) as [q2|] eqn:E; [|discriminate]. lengths. lia. }
  destruct (parse_length p3) as [[len p4]|] eqn:E4; [|discriminate].
  destruct (strchr _ (cur p4)).
  - destruct (incr p4) as [p5|] eqn:E5; [|discriminate].
    lengths.
    destruct (spec_type (cur p4) len) as [ty|] eqn:Ety; simpl in H;
      inversion H; subst; clear H.
    + split; [lia|]. intros e' He. inversion He; subst. simpl.
      split; [lia | split; [reflexivity | eauto]].
    + split; [lia | discriminate].
  - inversion H; subst. lengths. split; [lia | discriminate].
Qed.

Lemma suffix_refl (p : string) : suffix_of p p.
Proof. now exists "". Qed.

Lemma suffix_trans (a b c : string) : suffix_of a b -> suffix_of b c -> suffix_of a c.
Proof.
  intros [x ->] [y ->]. exists (y ++ x). now rewrite string_app_assoc.
Qed.

Lemma suffix_cons (c : ascii) (p : string) : suffix_of p (String c p).
Proof. now exists (one c). Qed.

Lemma incr_suffix (p q : string) : incr p = Some q -> suffix_of q p.
Proof. destruct p; simpl; intro H; inversion H; subst. apply suffix_cons. Qed.

Lemma skip_while_suffix (f : ascii -> bool) (p q : string) :
  skip_while f p = Some q -> suffix_of q p.
Proof.
  revert q; induction p as [|c p IH]; intros q; simpl.
  - destruct (f NUL); intro H; inversion H; apply suffix_refl.
  - destruct (f c); intro H.
    + eapply suffix_trans; [apply IH, H | apply suffix_cons].
    + inversion H; apply suffix_refl.
Qed.

Lemma star_or_digits_suffix (p q : string) :
  star_or_digits p = Some q -> suffix_of q p.
Proof.
  unfold star_or_digits. destruct (Ascii.eqb (cur p) "*").
  - apply incr_suffix.
  - apply skip_while_suffix.
Qed.

Lemma parse_length_suffix (p l q : string) :
  parse_length p = Some (l, q) -> suffix_of q p.
Proof.
  unfold parse_length. intro H. split_matches; inversion H; subst;
    repeat match goal with E : incr _ = Some _ |- _ => apply incr_suffix in E end;
    eauto using suffix_refl, suffix_trans.
Qed.

Lemma parse_marker_suffix (start q : string) (o : option format_spec_t) :
  parse_marker start = Some (o, q) -> suffix_of q start.
Proof.
  unfold parse_marker. intro H.
  destruct (incr start) as [p0|] eqn:E0; [|discriminate].
  destruct (skip_while _ p0) as [p1|] eqn:E1; [|discriminate].
  destruct (star_or_digits p1) as [p2|] eqn:E2; [|discriminate].
  destruct (if Ascii.eqb (cur p2) "." then _ else _) as [p3|] eqn:E3; [|discriminate].
  assert (S3 : suffix_of p3 p2).
  { destruct (Ascii.eqb (cur p2) "."); [|inversion E3; apply suffix_refl].
    destruct (incr p2) as [q2|] eqn:E; [|discriminate].
    apply incr_suffix in E. apply star_or_digits_suffix in E3.
    eauto using suffix_trans. }
  apply incr_suffix in E0. apply skip_while_suffix in E1.
  apply star_or_digits_suffix in E2.
  destruct (parse_length p3) as [[len p4]|] eqn:E4; [|discriminate].
  apply parse_length_suffix in E4.
  destruct (strchr _ (cur p4)).
  - destruct (incr p4) as [p5|] eqn:E5; [|discriminate].
    apply incr_suffix in E5. inversion H; subst.
    eauto 7 using suffix_trans.
  - inversion H; subst. eauto 6 using suffix_trans.
Qed.

(** An entry's text is a prefix of the text at the marker: its ['%'] and
    what follows up to the end of the marker or a ['\0'] before it. *)
Lemma parse_marker_entry (r q : string) (e : format_spec_t) :
  parse_marker (String "%" r) = Some (Some e, q) ->
  exists m post, substr e = String "%" m /\ String "%" r = substr e ++ post /\
    all_chars not_nul m = true /\ ((1 <= String.length m)%nat \/ cur post = NUL).
Proof.
  intro H. destruct (parse_marker_bounds _ _ _ H) as [_ Hb].
  destruct (Hb e eq_refl) as (Hl & Hs & _).
  destruct (String.length (String "%" r) - String.length q) as [|n] eqn:En; [lia|].
  cbn [strncpy_str] in Hs. rewrite Hs.
  destruct (strncpy_spec n r) as (post & Hr & Hn & Hc).
  exists (strncpy_str n r), post. split; [reflexivity|].
  split; [rewrite Hr at 1; reflexivity|]. split; [exact Hn|].
  destruct Hc as [Hc|Hc]; [left; cbn [String.length] in En, Hl; lia | right; exact Hc].
Qed.

(** The invariant scheme of [scan_loop]: positions stay suffixes of [t],
    and [P] holds of every entry made at a ['%'] inside [t]. *)
Lemma scan_loop_forall (t : string) (P : format_spec_t -> Prop)
  (HP : forall r e q, suffix_of (String "%" r) t ->
        parse_marker (String "%" r) = Some (Some e, q) -> P e) :
  forall fuel p acc specs, suffix_of p t ->
  scan_loop fuel p acc = Ok specs -> Forall P acc -> Forall P specs.
Proof.
  induction fuel as [|fuel IH]; intros p acc specs Hp H Hacc; [discriminate|].
  destruct p as [|c p']; simpl in H; [inversion H; subst; exact Hacc|].
  assert (Hp' : suffix_of p' t) by (eapply suffix_trans; [apply suffix_cons | exact Hp]).
  destruct (Ascii.eqb c NUL); [inversion H; subst; exact Hacc|].
  destruct (Ascii.eqb c "%") eqn:Ec; [apply Ascii.eqb_eq in Ec; subst c|].
  - destruct (Ascii.eqb (cur p') "%").
    + destruct (incr p') as [q|] eqn:Eq; [|discriminate].
      apply (IH q acc); auto. eapply suffix_trans; [apply incr_suffix, Eq | exact Hp'].
    + destruct (parse_marker (String "%" p')) as [[[e|] q]|] eqn:Em; try discriminate.
      * apply (IH q (app acc [e])); auto.
        -- eapply suffix_trans; [eapply parse_marker_suffix, Em | exact Hp].
        -- apply Forall_app; split; [exact Hacc|]. constructor; [eapply HP; eauto | constructor].
      * apply (IH q acc); auto.
        eapply suffix_trans; [eapply parse_marker_suffix, Em | exact Hp].
  - apply (IH p' acc); auto.
Qed.

Lemma scan_loop_terminates :
  forall fuel p acc, (String.length p < fuel)%nat -> scan_loop fuel p acc <> NoFuel.
Proof.
  induction fuel as [|fuel IH]; intros p acc Hf; [lia|].
  destruct p as [|c p']; simpl; [discriminate|]. simpl in Hf.
  destruct (Ascii.eqb c NUL); [discriminate|].
  destruct (Ascii.eqb c "%") eqn:Ec; [apply Ascii.eqb_eq in Ec; subst c|].
  - destruct (Ascii.eqb (cur p') "%").
    + destruct (incr p') as [q|] eqn:Eq; [|discriminate].
      apply incr_length in Eq. apply IH. lia.
    + destruct (parse_marker (String "%" p')) as [[[e|] q]|] eqn:Em; try discriminate;
        apply parse_marker_bounds in Em as [Hl _]; simpl in Hl; apply IH; lia.
  - apply IH. lia.
Qed.

Lemma spec_type_not_float (c : ascii) (len : string) (ty : var_type) :
  spec_type c len = Some ty -> ty <> TYPE_FLOAT.
Proof.
  unfold spec_type, length_table. intro H.
  split_matches; inversion H; subst; discriminate.
Qed.

(** The scanner terminates on every template: it returns its entries, or
    stops at undefined behaviour (C1), never running on. *)
Theorem scan_terminates (t : string) :
  find_format_specifiers (Some t) <> NoFuel.
Proof. apply scan_loop_terminates. simpl. lia. Qed.

(** Every entry of the scanner is a piece of the template: its text starts
    with ['%'], holds no ['\0'], and occurs in the template as it is (flags,
    width, precision and length included); it has at least two characters
    unless the template has a ['\0'] right after its ['%']. *)
Theorem scan_entries_in_template (t : string) (specs : list format_spec_t)
  (H : find_format_specifiers (Some t) = Ok specs) :
  Forall (fun e => exists m pre post,
            substr e = String "%" m /\ all_chars not_nul m = true /\
            t = pre ++ substr e ++ post /\
            ((1 <= String.length m)%nat \/ cur post = NUL)) specs.
Proof.
  eapply (scan_loop_forall t); [| | exact H | constructor]; [|apply suffix_refl].
  intros r e q [pre Hpre] Hm.
  destruct (parse_marker_entry _ _ _ Hm) as (m & post & Hs & He & Hn & Hc).
  exists m, pre, post. split; [exact Hs|]. split; [exact Hn|].
  split; [|exact Hc]. rewrite Hpre, He. reflexivity.
Qed.

Lemma scan_entries_in_template_witness :
  Forall (fun e => exists m pre post,
            substr e = String "%" m /\ all_chars not_nul m = true /\
            "x%-5d|%.*s" = pre ++ substr e ++ post /\
            ((1 <= String.length m)%nat \/ cur post = NUL))
    [{| substr := "%-5d"; type := TYPE_INT |}; {| substr := "%.*s"; type := TYPE_STRING |}].
Proof. apply scan_entries_in_template. reflexivity. Defined.

(** The scanner never yields [TYPE_FLOAT]: a [float] argument is read as
    [double] (its [case] is never reached). *)
Theorem scan_never_float (t : string) (specs : list format_spec_t)
  (H : find_format_specifiers (Some t) = Ok specs) :
  Forall (fun e => type e <> TYPE_FLOAT) specs.
Proof.
  eapply (scan_loop_forall t); [| | exact H | constructor]; [|apply suffix_refl].
  intros r e q _ Hm.
  destruct (parse_marker_bounds _ _ _ Hm) as [_ Hb].
  destruct (Hb e eq_refl) as (_ & _ & c & len & Ht).
  exact (spec_type_not_float _ _ _ Ht).
Qed.

Lemma scan_never_float_witness :
  Forall (fun e => type e <> TYPE_FLOAT)
    [{| substr := "%f"; type := TYPE_DOUBLE |}; {| substr := "%Lg"; type := TYPE_LONG_DOUBLE |}].
Proof. apply (scan_never_float "%f %Lg"). reflexivity. Defined.

(** *** One iteration of a render loop *)

Lemma advance_length (n : nat) (p q : string) :
  advance n p = Some q ->
  (n <= String.length p)%nat /\ String.length q = (String.length p - n)%nat.
Proof.
  unfold advance. destruct (Nat.leb_spec n (String.length p)) as [Hn|Hn];
    intro E; [|discriminate].
  inversion E; subst. split; [exact Hn|]. apply substring_length. lia.
Qed.

Lemma skip2_length (p q : string) :
  skip2 p = Some q -> String.length p = S (S (String.length q)).
Proof.
  unfold skip2. destruct (incr p) as [r|] eqn:E1; simpl; [|discriminate].
  intro E2. apply incr_length in E1, E2. lia.
Qed.

Lemma stores_below_grow (st st' : dstate) :
  st_mem st' = st_mem st ->
  (st_spec_count st + st_struct_count st <= st_spec_count st' + st_struct_count st')%nat ->
  stores_below st -> stores_below st'.
Proof.
  unfold stores_below. intros Hm Hc H. rewrite Hm.
  eapply Forall_impl; [|exact H]. intros s Hs; simpl in Hs. lia.
Qed.

Lemma native_field_mono native act e st st' :
  (1 <= String.length (substr e))%nat ->
  native_field native act e st = Next st' -> step_mono st st'.
Proof.
  intros Hl H. unfold native_field in H.
  destruct act as [t|k|].
  - destruct (st_args st) as [|a r] eqn:Ea; [discriminate|]. simpl in H.
    destruct (advance _ (st_p st)) as [p'|] eqn:Ep; [|discriminate].
    apply advance_length in Ep. inversion H; subst; clear H.
    unfold step_mono; simpl. repeat split.
    + lia.
    + exists [a]. exact Ea.
    + eexists; reflexivity.
    + lia.
    + apply stores_below_grow; simpl; [reflexivity | lia].
  - destruct (st_args st) as [|a r] eqn:Ea; [discriminate|].
    destruct a; try discriminate.
    destruct (advance _ (st_p st)) as [p'|] eqn:Ep; [|discriminate].
    apply advance_length in Ep. inversion H; subst; clear H.
    unfold step_mono; simpl. repeat split.
    + lia.
    + exists [APtr addr]. exact Ea.
    + exists "". symmetry. apply string_app_nil_r.
    + lia.
    + unfold stores_below; simpl. intro Hb. apply Forall_app. split.
      * refine (Forall_impl _ _ Hb). intros s Hs. simpl in *. lia.
      * constructor; [simpl; lia | constructor].
  - destruct (advance _ (st_p st)) as [p'|] eqn:Ep; [|discriminate].
    apply advance_length in Ep. inversion H; subst; clear H.
    unfold step_mono; simpl. repeat split.
    + lia.
    + exists []. reflexivity.
    + exists "". symmetry. apply string_app_nil_r.
    + lia.
    + apply stores_below_grow; simpl; [reflexivity | lia].
Qed.

Ltac simple_step_mono Ep :=
  unfold step_mono; simpl; rewrite Ep in *; simpl;
  repeat match goal with E : skip2 _ = Some _ |- _ => apply skip2_length in E end;
  simpl in *; split; [lia|];
  split; [solve [exists nil; reflexivity
                | match goal with
                  | E : st_args _ = ?a :: _ |- _ => exists (cons a nil); exact E
                  end]|];
  split; [solve [eexists; reflexivity
                | exists ""; symmetry; apply string_app_nil_r]|];
  split; [lia|];
  apply stores_below_grow; simpl; [reflexivity | lia].

Ltac step_mono_tac :=
  let Hs := fresh "Hs" in let H := fresh "H" in let Ep := fresh "Ep" in
  intros Hs H;
  unfold vprint_step, vfprint_step in H; cbv beta zeta in H;
  destruct (st_p _) as [|c p1] eqn:Ep; [discriminate|];
  split_matches; try discriminate;
  first
  [ match goal with
    | E : nth_error _ _ = Some ?e |- _ =>
        exact (native_field_mono _ _ _ _ _
                 (proj1 (Forall_forall _ _) Hs e (nth_error_In _ _ E)) H)
    end
  | inversion H; subst; clear H; simple_step_mono Ep ].

(** The cursor moves forward at each iteration of display_vprint, given
    entries of at least one character (what the scanner yields). *)
Lemma vprint_step_mono native specs st st' :
  Forall (fun e => 1 <= String.length (substr e))%nat specs ->
  vprint_step native specs st = Next st' -> step_mono st st'.
Proof. step_mono_tac. Qed.

Lemma vfprint_step_mono native file specs st st' :
  Forall (fun e => 1 <= String.length (substr e))%nat specs ->
  vfprint_step native file specs st = Next st' -> step_mono st st'.
Proof. step_mono_tac. Qed.

(** *** Whole render loops *)

Section Loops.

Variable step : dstate -> step_res.

Lemma run_loop_terminates_gen
  (Hstep : forall st st', step st = Next st' ->
           (String.length (st_p st') < String.length (st_p st))%nat) :
  forall fuel st, (String.length (st_p st) < fuel)%nat -> run_loop step fuel st <> NoFuel.
Proof.
  induction fuel as [|fuel IH]; intros st Hf; [lia|]. simpl.
  destruct (step st) as [|st'|] eqn:E; try discriminate.
  apply IH. specialize (Hstep _ _ E). lia.
Qed.

Lemma run_loop_fuel
  (Hstep : forall st st', step st = Next st' ->
           (String.length (st_p st') < String.length (st_p st))%nat) :
  forall f1 f2 st, (String.length (st_p st) < f1)%nat -> (String.length (st_p st) < f2)%nat ->
  run_loop step f1 st = run_loop step f2 st.
Proof.
  induction f1 as [|f1 IH]; intros [|f2] st H1 H2; try lia. simpl.
  destruct (step st) as [|st'|] eqn:E; try reflexivity.
  specialize (Hstep _ _ E). apply IH; lia.
Qed.

Lemma run_loop_mono
  (Hstep : forall st st', step st = Next st' -> step_mono st st') :
  forall fuel st st', run_loop step fuel st = Ok st' ->
  (exists pre, st_args st = app pre (st_args st')) /\
  (exists o, st_out st' = st_out st ++ o) /\
  (st_spec_count st + st_struct_count st <= st_spec_count st' + st_struct_count st')%nat /\
  (stores_below st -> stores_below st').
Proof.
  induction fuel as [|fuel IH]; intros st st'' H; [discriminate|]. simpl in H.
  destruct (step st) as [|st'|] eqn:E; try discriminate.
  - inversion H; subst. split; [|split; [|split]].
    + exists nil. reflexivity.
    + exists "". symmetry. apply string_app_nil_r.
    + lia.
    + intro Hb. exact Hb.
  - destruct (Hstep _ _ E) as (_ & [pre1 Ha1] & [o1 Ho1] & Hc1 & Hb1).
    destruct (IH _ _ H) as ([pre2 Ha2] & [o2 Ho2] & Hc2 & Hb2).
    split; [|split; [|split]].
    + exists (app pre1 pre2). rewrite Ha1, Ha2. apply app_assoc.
    + exists (o1 ++ o2). rewrite Ho2, Ho1. apply string_app_assoc.
    + lia.
    + intro Hb. apply Hb2, Hb1, Hb.
Qed.

End Loops.

Lemma scan_entries_nonempty (t : string) (specs : list format_spec_t) :
  find_format_specifiers (Some t) = Ok specs ->
  Forall (fun e => 1 <= String.length (substr e))%nat specs.
Proof.
  intro H.
  eapply (scan_loop_forall t); [| | exact H | constructor]; [|apply suffix_refl].
  intros r e q _ Hm.
  destruct (parse_marker_entry _ _ _ Hm) as (m & post & Hs & _).
  rewrite Hs. simpl. lia.
Qed.

Lemma find_not_nofuel (t : string) : find_format_specifiers (Some t) <> NoFuel.
Proof. apply scan_loop_terminates. simpl. lia. Qed.

(** The driver runs that follow a successful scan. *)
Lemma vprint_run_props native t specs :
  find_format_specifiers (Some t) = Ok specs ->
  (forall st st', vprint_step native specs st = Next st' -> step_mono st st').
Proof.
  intros H st st'. apply vprint_step_mono. exact (scan_entries_nonempty _ _ H).
Qed.

Lemma vfprint_run_props native file t specs :
  find_format_specifiers (Some t) = Ok specs ->
  (forall st st', vfprint_step native file specs st = Next st' -> step_mono st st').
Proof.
  intros H st st'. apply vfprint_step_mono. exact (scan_entries_nonempty _ _ H).
Qed.

(** A successful call of either driver, told apart by its final state. *)
Lemma driver_ok_inv native file format args r :
  display_vprint native format args = Ok r \/
  display_vfprint native file format args = Ok r ->
  r = failed args \/
  exists t step specs st, format = Some t /\
    find_format_specifiers (Some t) = Ok specs /\
    (forall st1 st2, step st1 = Next st2 -> step_mono st1 st2) /\
    run_loop step (S (String.length t)) (init_state t args) = Ok st /\
    r = finish st.
Proof.
  intros [H|H].
  - unfold display_vprint in H. destruct format as [t|]; [|left; congruence].
    destruct (find_format_specifiers (Some t)) as [specs| |] eqn:Ef; try discriminate.
    destruct (run_loop _ _ _) as [st| |] eqn:Er; try discriminate.
    right. exists t, (vprint_step native specs), specs, st.
    split; [reflexivity|]. split; [exact Ef|]. split; [|split; [exact Er | congruence]].
    exact (vprint_run_props native t specs Ef).
  - unfold display_vfprint in H.
    destruct format as [t|]; [|left; congruence].
    destruct file as [f|]; [|left; congruence].
    destruct (find_format_specifiers (Some t)) as [specs| |] eqn:Ef; try discriminate.
    destruct (run_loop _ _ _) as [st| |] eqn:Er; try discriminate.
    right. exists t, (vfprint_step native f specs), specs, st.
    split; [reflexivity|]. split; [exact Ef|]. split; [|split; [exact Er | congruence]].
    exact (vfprint_run_props native f t specs Ef).
Qed.

(** Both drivers terminate on every template: each iteration of their
    [while] loop moves [p] forward, so a call returns or stops at undefined
    behaviour, never runs on. *)
Theorem drivers_terminate native (file : option nat) (format : option string)
  (args : list arg) :
  display_vprint native format args <> NoFuel /\
  display_vfprint native file format args <> NoFuel.
Proof.
  split.
  - unfold display_vprint. destruct format as [t|]; [|discriminate].
    destruct (find_format_specifiers (Some t)) as [specs| |] eqn:Ef;
      [| discriminate | exfalso; exact (find_not_nofuel t Ef)].
    destruct (run_loop _ _ _) as [st| |] eqn:Er; try discriminate.
    exfalso. refine (run_loop_terminates_gen _ _ _ _ _ Er); [|simpl; lia].
    intros st1 st2 E. exact (proj1 (vprint_run_props native t specs Ef _ _ E)).
  - unfold display_vfprint. destruct format as [t|]; [|discriminate].
    destruct file as [f|]; [|discriminate].
    destruct (find_format_specifiers (Some t)) as [specs| |] eqn:Ef;
      [| discriminate | exfalso; exact (find_not_nofuel t Ef)].
    destruct (run_loop _ _ _) as [st| |] eqn:Er; try discriminate.
    exfalso. refine (run_loop_terminates_gen _ _ _ _ _ Er); [|simpl; lia].
    intros st1 st2 E. exact (proj1 (vfprint_run_props native f t specs Ef _ _ E)).
Qed.

(** The drivers only advance the argument cursor: the arguments left over
    by a call that returns are a tail of the ones it was given. *)
Theorem drivers_consume_prefix native (file : option nat) (format : option string)
  (args : list arg) (r : vresult)
  (H : display_vprint native format args = Ok r \/
       display_vfprint native file format args = Ok r) :
  exists pre, args = app pre (v_args r).
Proof.
  destruct (driver_ok_inv _ _ _ _ _ H) as [-> | (t & step & specs & st & _ & _ & Hs & Er & ->)].
  - exists nil. reflexivity.
  - destruct (run_loop_mono step Hs _ _ _ Er) as ([pre Ha] & _).
    exists pre. exact Ha.
Qed.

Lemma drivers_consume_prefix_witness :
  exists pre, [AInt 7; AStr "x"; AInt 9] = app pre (v_args
    {| v_ret := 2; v_out := "7 x"; v_mem := []; v_args := [AInt 9] |}).
Proof.
  apply (drivers_consume_prefix demo_native None (Some "%d %s")).
  left. vm_compute. reflexivity.
Defined.

(** Every [%n] store of a call that returns assigns a value in
    [0 .. ret - 1]: it counts the fields rendered before it, and the
    marker itself is counted after the store. *)
Theorem stores_below_return native (file : option nat) (format : option string)
  (args : list arg) (r : vresult)
  (H : display_vprint native format args = Ok r \/
       display_vfprint native file format args = Ok r) :
  Forall (fun s => (0 <= store_val s < v_ret r)%Z) (v_mem r).
Proof.
  destruct (driver_ok_inv _ _ _ _ _ H) as [-> | (t & step & specs & st & _ & _ & Hs & Er & ->)].
  - constructor.
  - destruct (run_loop_mono step Hs _ _ _ Er) as (_ & _ & _ & Hb).
    apply Hb. constructor.
Qed.

Lemma stores_below_return_witness :
  Forall (fun s => (0 <= store_val s < v_ret
    {| v_ret := 3; v_out := "ab"; v_mem := [(PInt, 5%nat, 2%Z)]; v_args := [] |})%Z)
    [(PInt, 5%nat, 2%Z)].
Proof.
  apply (stores_below_return demo_native None (Some "%s%s%n") [AStr "a"; AStr "b"; APtr 5]
           {| v_ret := 3; v_out := "ab"; v_mem := [(PInt, 5%nat, 2%Z)]; v_args := [] |}).
  left. vm_compute. reflexivity.
Defined.

Lemma vprint_some_ret native t args r :
  display_vprint native (Some t) args = Ok r -> (0 <= v_ret r)%Z.
Proof.
  unfold display_vprint. destruct (find_format_specifiers (Some t)); try discriminate.
  destruct (run_loop _ _ _); try discriminate. intro H; inversion H; subst. simpl. lia.
Qed.

Lemma vfprint_some_ret native f t args r :
  display_vfprint native (Some f) (Some t) args = Ok r -> (0 <= v_ret r)%Z.
Proof.
  unfold display_vfprint. destruct (find_format_specifiers (Some t)); try discriminate.
  destruct (run_loop _ _ _); try discriminate. intro H; inversion H; subst. simpl. lia.
Qed.

(** display_vprintln with a template: the call of display_vprint cannot
    return -1, so the newline always follows what it wrote. *)
Theorem vprintln_appends_newline native (t : string) (args : list arg) (r : vresult)
  (H : display_vprint native (Some t) args = Ok r) :
  (0 <= v_ret r)%Z /\
  display_vprintln native (Some t) args =
    Ok {| v_ret := v_ret r; v_out := v_out r ++ one "010";
          v_mem := v_mem r; v_args := v_args r |}.
Proof.
  pose proof (vprint_some_ret _ _ _ _ H) as Hr. split; [exact Hr|].
  unfold display_vprintln. rewrite H.
  destruct (Z.eqb_spec (v_ret r) (-1)); [lia | reflexivity].
Qed.

Lemma vprintln_appends_newline_witness :
  (0 <= 1)%Z /\
  display_vprintln demo_native (Some "n=%d") [AInt 4] =
    Ok {| v_ret := 1; v_out := "n=4" ++ one "010"; v_mem := []; v_args := [] |}.
Proof.
  apply (vprintln_appends_newline demo_native "n=%d" [AInt 4]
           {| v_ret := 1; v_out := "n=4"; v_mem := []; v_args := [] |}).
  vm_compute. reflexivity.
Defined.

(** display_vfprintln with a template and a stream: the newline always
    follows what display_vfprint wrote. *)
Theorem vfprintln_appends_newline native (f : nat) (t : string) (args : list arg)
  (r : vresult)
  (H : display_vfprint native (Some f) (Some t) args = Ok r) :
  (0 <= v_ret r)%Z /\
  display_vfprintln native (Some f) (Some t) args =
    Ok {| v_ret := v_ret r; v_out := v_out r ++ one "010";
          v_mem := v_mem r; v_args := v_args r |}.
Proof.
  pose proof (vfprint_some_ret _ _ _ _ _ H) as Hr. split; [exact Hr|].
  unfold display_vfprintln. rewrite H.
  destruct (Z.eqb_spec (v_ret r) (-1)); [lia | reflexivity].
Qed.

Lemma vfprintln_appends_newline_witness :
  (0 <= 1)%Z /\
  display_vfprintln demo_native (Some 2%nat) (Some "n=%d") [AInt 4] =
    Ok {| v_ret := 1; v_out := "n=4" ++ one "010"; v_mem := []; v_args := [] |}.
Proof.
  apply (vfprintln_appends_newline demo_native 2 "n=%d" [AInt 4]
           {| v_ret := 1; v_out := "n=4"; v_mem := []; v_args := [] |}).
  vm_compute. reflexivity.
Defined.

(** The println variants on a [NULL] template or stream return -1 and
    write nothing, not even the newline. *)
Theorem println_null_writes_nothing native (file : option nat) (format : option string)
  (args : list arg) :
  display_vprintln native None args = Ok (failed args) /\
  display_vfprintln native file None args = Ok (failed args) /\
  display_vfprintln native None format args = Ok (failed args).
Proof.
  unfold display_vprintln, display_vfprintln, display_vprint, display_vfprint.
  split; [reflexivity|]. split; [destruct file; reflexivity | destruct format; reflexivity].
Qed.

(** *** Templates without markers *)

Lemma scan_loop_fuel :
  forall f1 f2 p acc, (String.length p < f1)%nat -> (String.length p < f2)%nat ->
  scan_loop f1 p acc = scan_loop f2 p acc.
Proof.
  induction f1 as [|f1 IH]; intros [|f2] p acc H1 H2; try lia.
  destruct p as [|c p']; simpl; [reflexivity|]. simpl in H1, H2.
  destruct (Ascii.eqb c NUL); [reflexivity|].
  destruct (Ascii.eqb c "%") eqn:Ec; [apply Ascii.eqb_eq in Ec; subst c|].
  - destruct (Ascii.eqb (cur p') "%").
    + destruct (incr p') as [q|] eqn:Ei; [|reflexivity].
      apply incr_length in Ei. apply IH; lia.
    + destruct (parse_marker (String "%" p')) as [[[e|] q]|] eqn:Em; try reflexivity;
        destruct (parse_marker_bounds _ _ _ Em) as [Hq _]; simpl in Hq; apply IH; lia.
  - apply IH; lia.
Qed.

Lemma plain_cons (c : ascii) (r : string) :
  plain (String c r) = true ->
  (Ascii.eqb c NUL = false) /\
  ((c = "%"%char /\ exists r', r = String "%" r' /\ plain r' = true) \/
   (c <> "%"%char /\ (c = "{"%char -> Ascii.eqb (cur r) "}" = false) /\ plain r = true)).
Proof.
  simpl. destruct (Ascii.eqb_spec c NUL) as [_|Hn]; [discriminate|].
  intro H. split; [reflexivity|].
  destruct (Ascii.eqb_spec c "%") as [->|Hp].
  - left. split; [reflexivity|]. destruct r as [|d r']; [discriminate|].
    apply andb_true_iff in H as [Hd Hr]. apply Ascii.eqb_eq in Hd; subst d.
    exists r'. split; [reflexivity|exact Hr].
  - right. split; [exact Hp|].
    destruct (Ascii.eqb_spec c "{") as [->|Hb].
    + apply andb_true_iff in H as [Hc Hr]. apply negb_true_iff in Hc.
      split; [intros _; exact Hc | exact Hr].
    + split; [intro E; contradiction | exact H].
Qed.

Lemma scan_plain_prefix (p t : string) (Hp : plain p = true) :
  forall fuel acc, (String.length (p ++ t) < fuel)%nat ->
  scan_loop fuel (p ++ t) acc = scan_loop (S (String.length t)) t acc.
Proof.
  revert Hp. induction p as [p IHp] using (induction_ltof1 _ String.length).
  intros Hp [|fuel] acc Hf; [lia|].
  destruct p as [|c r].
  - apply scan_loop_fuel; simpl in *; lia.
  - destruct (plain_cons _ _ Hp) as [Hn [(-> & r' & -> & Hr') | (Hc & _ & Hr)]];
      simpl; try rewrite Hn.
    + simpl. apply IHp; [unfold ltof; simpl; lia | exact Hr' |].
      simpl in Hf. rewrite string_length_app in *. lia.
    + apply Ascii.eqb_neq in Hc. rewrite Hc.
      apply IHp; [unfold ltof; simpl; lia | exact Hr |].
      simpl in Hf. rewrite string_length_app in *. lia.
Qed.

Lemma vprint_step_pct native specs st q :
  st_p st = String "%" (String "%" q) ->
  vprint_step native specs st = Next (moved st q "%").
Proof. intro E. unfold vprint_step. rewrite E. reflexivity. Qed.

Lemma vfprint_step_pct native file specs st q :
  st_p st = String "%" (String "%" q) ->
  vfprint_step native file specs st = Next (moved st q "%").
Proof. intro E. unfold vfprint_step. rewrite E. reflexivity. Qed.

Ltac plain_char_tac c E Hn Hc Hb :=
  rewrite E; cbv beta zeta; rewrite Hn;
  apply Ascii.eqb_neq in Hc; rewrite Hc; simpl;
  destruct (Ascii.eqb_spec c "{") as [Hl|Hl]; simpl;
  [rewrite (Hb Hl); reflexivity | reflexivity].

Lemma vprint_step_char native specs st c q :
  st_p st = String c q -> Ascii.eqb c NUL = false -> c <> "%"%char ->
  (c = "{"%char -> Ascii.eqb (cur q) "}" = false) ->
  vprint_step native specs st = Next (moved st q (one c)).
Proof. intros E Hn Hc Hb. unfold vprint_step. plain_char_tac c E Hn Hc Hb. Qed.

Lemma vfprint_step_char native file specs st c q :
  st_p st = String c q -> Ascii.eqb c NUL = false -> c <> "%"%char ->
  (c = "{"%char -> Ascii.eqb (cur q) "}" = false) ->
  vfprint_step native file specs st = Next (moved st q (one c)).
Proof. intros E Hn Hc Hb. unfold vfprint_step. plain_char_tac c E Hn Hc Hb. Qed.

Lemma moved_moved (st : dstate) (q t a b : string) :
  moved (moved st q a) t b = moved st t (a ++ b).
Proof. unfold moved; simpl. now rewrite string_app_assoc. Qed.

Lemma moved_nil (st : dstate) : moved st (st_p st) "" = st.
Proof. destruct st; unfold moved; simpl. now rewrite string_app_nil_r. Qed.

Lemma last_brace_cons (c : ascii) (r : string) :
  last_is_brace r = true -> last_is_brace (String c r) = true.
Proof. destruct r; [discriminate | exact (fun H => H)]. Qed.

Section PlainRun.

Variable step : dstate -> step_res.
Hypothesis Hpct : forall st q,
  st_p st = String "%" (String "%" q) -> step st = Next (moved st q "%").
Hypothesis Hchar : forall st c q,
  st_p st = String c q -> Ascii.eqb c NUL = false -> c <> "%"%char ->
  (c = "{"%char -> Ascii.eqb (cur q) "}" = false) ->
  step st = Next (moved st q (one c)).
Hypothesis Hlen : forall st st', step st = Next st' ->
  (String.length (st_p st') < String.length (st_p st))%nat.

Lemma run_plain_prefix (p t : string) (Hp : plain p = true)
  (Ht : last_is_brace p = true -> Ascii.eqb (cur t) "}" = false) :
  forall fuel st, st_p st = p ++ t -> (String.length (p ++ t) < fuel)%nat ->
  run_loop step fuel st = run_loop step (S (String.length t)) (moved st t (unescape p)).
Proof.
  revert Hp Ht. induction p as [p IHp] using (induction_ltof1 _ String.length).
  intros Hp Ht [|fuel] st Ep Hf; [lia|].
  destruct p as [|c r].
  - simpl in Ep. rewrite <- Ep at 2. rewrite moved_nil.
    apply run_loop_fuel; [exact Hlen | |]; rewrite Ep; simpl in *; lia.
  - destruct (plain_cons _ _ Hp) as [Hn [(-> & r' & -> & Hr') | (Hc & Hb & Hr)]].
    + simpl. rewrite (Hpct st (r' ++ t) Ep).
      rewrite (IHp r'); [| unfold ltof; simpl; lia | exact Hr'
                         | intro Hl; apply Ht, last_brace_cons, last_brace_cons, Hl
                         | reflexivity |].
      * now rewrite moved_moved.
      * simpl in Hf. rewrite string_length_app in *. lia.
    + simpl. rewrite (Hchar st c (r ++ t) Ep Hn Hc).
      * rewrite (IHp r); [| unfold ltof; simpl; lia | exact Hr
                          | intro Hl; apply Ht, last_brace_cons, Hl | reflexivity |].
        -- rewrite moved_moved. simpl.
           apply Ascii.eqb_neq in Hc. rewrite Hc. reflexivity.
        -- simpl in Hf. rewrite string_length_app in *. lia.
      * intro Hl. specialize (Hb Hl). destruct r; [|exact Hb].
        apply Ht. subst c. reflexivity.
Qed.

End PlainRun.
Lemma native_field_shift native act e s st :
  native_field native act e (shift_out s st) =
  match native_field native act e st with Next st' => Next (shift_out s st') | x => x end.
Proof.
  unfold native_field, shift_out; simpl.
  destruct act as [t|k|]; simpl.
  - destruct (st_args st) as [|a r]; simpl; [reflexivity|].
    destruct (advance _ _); [|reflexivity]. simpl. now rewrite string_app_assoc.
  - destruct (st_args st) as [|[] r]; try reflexivity.
    destruct (advance _ _); reflexivity.
  - destruct (advance _ _); reflexivity.
Qed.

Ltac step_shift_tac :=
  match goal with |- _ (shift_out ?s ?st) = _ =>
    remember (shift_out s st) as st2 eqn:E2;
    assert (P1 : st_p st2 = st_p st) by (subst; reflexivity);
    assert (P2 : st_idx st2 = st_idx st) by (subst; reflexivity);
    assert (P3 : st_args st2 = st_args st) by (subst; reflexivity);
    assert (P4 : st_spec_count st2 = st_spec_count st) by (subst; reflexivity);
    assert (P5 : st_struct_count st2 = st_struct_count st) by (subst; reflexivity);
    assert (P6 : st_out st2 = s ++ st_out st) by (subst; reflexivity);
    assert (P7 : st_mem st2 = st_mem st) by (subst; reflexivity);
    unfold vprint_step, vfprint_step; cbv beta zeta;
    rewrite ?P1, ?P2, ?P3, ?P4, ?P5, ?P6, ?P7; subst st2
  end;
  split_matches; try reflexivity; try discriminate;
  first
  [ rewrite native_field_shift;
    match goal with E : native_field _ _ _ _ = _ |- _ => rewrite E end; reflexivity
  | unfold shift_out; simpl; now rewrite string_app_assoc ].

Lemma vprint_step_shift native specs s st :
  vprint_step native specs (shift_out s st) =
  match vprint_step native specs st with Next st' => Next (shift_out s st') | x => x end.
Proof. step_shift_tac. Qed.

Lemma vfprint_step_shift native file specs s st :
  vfprint_step native file specs (shift_out s st) =
  match vfprint_step native file specs st with Next st' => Next (shift_out s st') | x => x end.
Proof. step_shift_tac. Qed.

Lemma run_loop_shift (step : dstate -> step_res) (s : string)
  (Hs : forall st, step (shift_out s st) =
        match step st with Next st' => Next (shift_out s st') | x => x end) :
  forall fuel st, run_loop step fuel (shift_out s st) =
  match run_loop step fuel st with Ok st' => Ok (shift_out s st') | x => x end.
Proof.
  induction fuel as [|fuel IH]; intro st; [reflexivity|]. simpl.
  rewrite Hs. destruct (step st); [reflexivity | apply IH | reflexivity].
Qed.

Lemma init_moved (t u : string) (args : list arg) (p : string) :
  moved (init_state p args) t u = shift_out u (init_state t args).
Proof. unfold moved, shift_out, init_state; simpl. now rewrite string_app_nil_r. Qed.

Lemma find_plain_prefix (p t : string) :
  plain p = true ->
  find_format_specifiers (Some (p ++ t)) = find_format_specifiers (Some t).
Proof. intro Hp. unfold find_format_specifiers. apply scan_plain_prefix; [exact Hp | lia]. Qed.

Lemma vprint_plain_prefix native (p t : string) (args : list arg) :
  plain p = true -> (last_is_brace p = true -> Ascii.eqb (cur t) "}" = false) ->
  display_vprint native (Some (p ++ t)) args =
  prepend_out (unescape p) (display_vprint native (Some t) args).
Proof.
  intros Hp Ht. unfold display_vprint. rewrite (find_plain_prefix p t Hp).
  destruct (find_format_specifiers (Some t)) as [specs| |] eqn:Ef; try reflexivity.
  rewrite (run_plain_prefix (vprint_step native specs)
             (vprint_step_pct native specs) (vprint_step_char native specs)
             (fun st st' E => proj1 (vprint_run_props native t specs Ef st st' E))
             p t Hp Ht (S (String.length (p ++ t))) (init_state (p ++ t) args) eq_refl
             (Nat.lt_succ_diag_r _)).
  rewrite init_moved, (run_loop_shift _ _ (vprint_step_shift native specs _)).
  destruct (run_loop _ _ _); reflexivity.
Qed.

Lemma vfprint_plain_prefix native (f : nat) (p t : string) (args : list arg) :
  plain p = true -> (last_is_brace p = true -> Ascii.eqb (cur t) "}" = false) ->
  display_vfprint native (Some f) (Some (p ++ t)) args =
  prepend_out (unescape p) (display_vfprint native (Some f) (Some t) args).
Proof.
  intros Hp Ht. unfold display_vfprint. rewrite (find_plain_prefix p t Hp).
  destruct (find_format_specifiers (Some t)) as [specs| |] eqn:Ef; try reflexivity.
  rewrite (run_plain_prefix (vfprint_step native f specs)
             (vfprint_step_pct native f specs) (vfprint_step_char native f specs)
             (fun st st' E => proj1 (vfprint_run_props native f t specs Ef st st' E))
             p t Hp Ht (S (String.length (p ++ t))) (init_state (p ++ t) args) eq_refl
             (Nat.lt_succ_diag_r _)).
  rewrite init_moved, (run_loop_shift _ _ (vfprint_step_shift native f specs _)).
  destruct (run_loop _ _ _); reflexivity.
Qed.

(** A prefix of plain text (every ['%'] doubled, no ["{}"], no NUL) does
    not change the scanner's entries: they all come from the rest. *)
Theorem scan_ignores_plain_prefix (p t : string) (Hp : plain p = true) :
  find_format_specifiers (Some (p ++ t)) = find_format_specifiers (Some t).
Proof. exact (find_plain_prefix p t Hp). Qed.

Lemma scan_ignores_plain_prefix_witness :
  plain "50%% of " = true /\
  find_format_specifiers (Some ("50%% of " ++ "%d{}")) = find_format_specifiers (Some "%d{}").
Proof.
  split; [reflexivity|]. apply scan_ignores_plain_prefix. reflexivity.
Defined.

(** Both drivers render a plain prefix on their own: the call on [p ++ t]
    writes [p] with ["%%"] unescaped, then behaves as the call on [t] (same
    return value, stores and leftover arguments), provided [p] does not end
    a ["{}"] pair with the first character of [t]: if [p] ends in ['{'],
    [t] does not start with ['}']. *)
Theorem drivers_plain_prefix native (f : nat) (p t : string) (args : list arg)
  (Hp : plain p = true) (Ht : last_is_brace p = true -> Ascii.eqb (cur t) "}" = false) :
  display_vprint native (Some (p ++ t)) args =
    prepend_out (unescape p) (display_vprint native (Some t) args) /\
  display_vfprint native (Some f) (Some (p ++ t)) args =
    prepend_out (unescape p) (display_vfprint native (Some f) (Some t) args).
Proof. split; [apply vprint_plain_prefix | apply vfprint_plain_prefix]; assumption. Qed.

Lemma drivers_plain_prefix_witness :
  display_vprint demo_native (Some ("x=" ++ "}%d")) [AInt 3] =
    prepend_out (unescape "x=") (display_vprint demo_native (Some "}%d") [AInt 3]) /\
  display_vfprint demo_native (Some 1%nat) (Some ("x=" ++ "}%d")) [AInt 3] =
    prepend_out (unescape "x=") (display_vfprint demo_native (Some 1%nat) (Some "}%d") [AInt 3]).
Proof. apply drivers_plain_prefix; [reflexivity | discriminate]. Defined.

(** A template with no marker is written as its text with ["%%"]
    unescaped: no entry, no argument read, no store, return value 0. *)
Theorem plain_template_verbatim native (f : nat) (t : string) (args : list arg)
  (Hp : plain t = true) :
  find_format_specifiers (Some t) = Ok [] /\
  display_vprint native (Some t) args =
    Ok {| v_ret := 0; v_out := unescape t; v_mem := []; v_args := args |} /\
  display_vfprint native (Some f) (Some t) args =
    Ok {| v_ret := 0; v_out := unescape t; v_mem := []; v_args := args |}.
Proof.
  rewrite <- (string_app_nil_r t).
  rewrite (find_plain_prefix t "" Hp), (vprint_plain_prefix native t "" args Hp (fun _ => eq_refl)),
    (vfprint_plain_prefix native f t "" args Hp (fun _ => eq_refl)).
  split; [reflexivity|].
  rewrite (string_app_nil_r t).
  split; vm_compute; now rewrite string_app_nil_r.
Qed.

Lemma plain_template_verbatim_witness :
  find_format_specifiers (Some "100%% done {x}") = Ok [] /\
  display_vprint demo_native (Some "100%% done {x}") [AInt 1] =
    Ok {| v_ret := 0; v_out := unescape "100%% done {x}"; v_mem := [];
          v_args := [AInt 1] |} /\
  display_vfprint demo_native (Some 1%nat) (Some "100%% done {x}") [AInt 1] =
    Ok {| v_ret := 0; v_out := unescape "100%% done {x}"; v_mem := [];
          v_args := [AInt 1] |}.
Proof. apply plain_template_verbatim. reflexivity. Defined.

(** *** Markers with flags only *)

Lemma skip_flags (fl w s : string) :
  all_chars (str_has fl) w = true ->
  skip_while (strchr fl) (w ++ s) = skip_while (strchr fl) s.
Proof.
  induction w as [|c w IH]; simpl; [reflexivity|].
  intro H. apply andb_true_iff in H as [Hc Hw].
  unfold strchr at 1. rewrite Hc, orb_true_r. exact (IH Hw).
Qed.

Lemma parse_flags_only (w : string) :
  all_chars (str_has "-+ #0") w = true ->
  parse_marker (String "%" (w ++ "%")) =
    Some (Some {| substr := String "%" (w ++ "%"); type := TYPE_NONE |}, "").
Proof.
  intro Hw. unfold parse_marker. simpl incr. cbv beta iota.
  rewrite (skip_flags _ w "%" Hw). simpl.
  assert (Hn : all_chars not_nul (w ++ "%") = true).
  { rewrite all_chars_app, (all_chars_impl _ _ w (fun x => str_has_not_nul "-+ #0" x eq_refl) Hw).
    reflexivity. }
  pose proof (strncpy_app_head _ "" Hn) as E. rewrite string_app_nil_r in E.
  rewrite E. reflexivity.
Qed.

Lemma flags_head (w : string) :
  w <> "" -> all_chars (str_has "-+ #0") w = true -> Ascii.eqb (cur (w ++ "%")) "%" = false.
Proof.
  destruct w as [|c w]; [contradiction|]. simpl. intros _ H.
  apply andb_true_iff in H as [Hc _].
  destruct (Ascii.eqb_spec c "%") as [->|]; [discriminate | reflexivity].
Qed.

Lemma scan_flags_only (w : string) :
  w <> "" -> all_chars (str_has "-+ #0") w = true ->
  find_format_specifiers (Some (String "%" (w ++ "%"))) =
    Ok [{| substr := String "%" (w ++ "%"); type := TYPE_NONE |}].
Proof.
  intros Hne Hw. unfold find_format_specifiers.
  simpl String.length. rewrite string_length_app. simpl.
  rewrite (flags_head w Hne Hw), (parse_flags_only w Hw).
  destruct (String.length w + 1)%nat; reflexivity.
Qed.

Lemma run_loop_S step fuel st :
  run_loop step (S fuel) st =
  match step st with Halt => Ok st | Next st' => run_loop step fuel st' | Fault => UB end.
Proof. reflexivity. Qed.

Lemma advance_all (s : string) : advance (String.length s) s = Some "".
Proof. rewrite <- (string_app_nil_r s) at 2. apply advance_app. Qed.

Lemma vprint_flags_step native (w : string) (args : list arg) :
  w <> "" -> all_chars (str_has "-+ #0") w = true ->
  vprint_step native [{| substr := String "%" (w ++ "%"); type := TYPE_NONE |}]
    (init_state (String "%" (w ++ "%")) args) =
  Next {| st_p := ""; st_idx := 1; st_args := args; st_spec_count := 1;
          st_struct_count := 0; st_out := ""; st_mem := [] |}.
Proof.
  intros Hne Hw. unfold vprint_step, init_state. cbv beta zeta. cbn [st_p].
  rewrite (flags_head w Hne Hw). cbn -[advance].
  unfold native_field. cbn -[advance].
  pose proof (advance_all (String "%" (w ++ "%"))) as A. cbn [String.length] in A.
  rewrite A. reflexivity.
Qed.

Lemma vfprint_flags_step native f (w : string) (args : list arg) :
  w <> "" -> all_chars (str_has "-+ #0") w = true ->
  vfprint_step native f [{| substr := String "%" (w ++ "%"); type := TYPE_NONE |}]
    (init_state (String "%" (w ++ "%")) args) =
  Next {| st_p := ""; st_idx := 1; st_args := args; st_spec_count := 1;
          st_struct_count := 0; st_out := ""; st_mem := [] |}.
Proof.
  intros Hne Hw. unfold vfprint_step, init_state. cbv beta zeta. cbn [st_p].
  rewrite (flags_head w Hne Hw). cbn -[advance].
  unfold native_field. cbn -[advance].
  pose proof (advance_all (String "%" (w ++ "%"))) as A. cbn [String.length] in A.
  rewrite A. reflexivity.
Qed.

(** A marker made of flags only, such as ["%-%"] or ["%+#%"], is an entry
    of type [TYPE_NONE]: both drivers write nothing for it, read no
    argument, and count it in the return value. *)
Theorem flags_only_marker native (f : nat) (w : string) (args : list arg)
  (Hne : w <> "") (Hw : all_chars (str_has "-+ #0") w = true) :
  find_format_specifiers (Some (String "%" (w ++ "%"))) =
    Ok [{| substr := String "%" (w ++ "%"); type := TYPE_NONE |}] /\
  display_vprint native (Some (String "%" (w ++ "%"))) args =
    Ok {| v_ret := 1; v_out := ""; v_mem := []; v_args := args |} /\
  display_vfprint native (Some f) (Some (String "%" (w ++ "%"))) args =
    Ok {| v_ret := 1; v_out := ""; v_mem := []; v_args := args |}.
Proof.
  pose proof (scan_flags_only w Hne Hw) as Hs.
  split; [exact Hs|].
  unfold display_vprint, display_vfprint. rewrite Hs.
  cbn [String.length]. rewrite string_length_app. cbn [String.length].
  replace (String.length w + 1)%nat with (S (String.length w)) by lia.
  rewrite !run_loop_S, (vprint_flags_step native w args Hne Hw),
    (vfprint_flags_step native f w args Hne Hw).
  destruct w as [|c w]; [contradiction|]. cbn [String.length].
  rewrite !run_loop_S. split; reflexivity.
Qed.

Lemma flags_only_marker_witness :
  find_format_specifiers (Some (String "%" ("-" ++ "%"))) =
    Ok [{| substr := String "%" ("-" ++ "%"); type := TYPE_NONE |}] /\
  display_vprint demo_native (Some (String "%" ("-" ++ "%"))) [AInt 5] =
    Ok {| v_ret := 1; v_out := ""; v_mem := []; v_args := [AInt 5] |} /\
  display_vfprint demo_native (Some 1%nat) (Some (String "%" ("-" ++ "%"))) [AInt 5] =
    Ok {| v_ret := 1; v_out := ""; v_mem := []; v_args := [AInt 5] |}.
Proof. apply flags_only_marker; [discriminate | reflexivity]. Defined.
